(** * TextView: a shallow embedding of tview's scrollable text-display engine

    The development follows the Go source of [TextView]: the stream
    ingest ([Write]), the line indexer ([reindexBuffer]), the viewport
    clamping of [Draw] and the region extractor ([GetRegionText]).

    Conventions.
    - A Go [string] and a Go [[]byte] are both sequences of bytes:
      [gostring := list ascii].
    - A Go [int] is modelled as [Z]; lengths and offsets stay far below
      2^63, so no wrap-around is written out for them.  Integer division
      is Go's truncating division, [Z.quot].
    - A call that may panic (slice out of range) or loop forever returns
      an [outcome]. *)

From Stdlib Require Import ZArith Ascii String Bool Lia List.
From Stdlib Require Import FunctionalExtensionality.
Import ListNotations.
Open Scope Z_scope.

Set Implicit Arguments.

(** ** Bytes and Go strings *)

Definition gostring := list ascii.

Definition str (x : string) : gostring := list_ascii_of_string x.

Definition byteZ (c : ascii) : Z := Z.of_N (N_of_ascii c).

Definition byte_of_Z (z : Z) : ascii := ascii_of_N (Z.to_N (z mod 256)).

(** The double quote character, byte 34. *)
Definition quote : ascii := ascii_of_nat 34.

Definition len {A : Type} (l : list A) : Z := Z.of_nat (length l).

Fixpoint gostring_eqb (a b : gostring) : bool :=
  match a, b with
  | [], [] => true
  | x :: a', y :: b' => Ascii.eqb x y && gostring_eqb a' b'
  | _, _ => false
  end.

(** ** Outcomes of a Go call: normal return, run-time panic, or an
    endless loop. *)

Inductive outcome (A : Type) : Type :=
| Returns (a : A)
| Panics
| Diverges.

Arguments Returns {A} a.
Arguments Panics {A}.
Arguments Diverges {A}.

Definition bind {A B : Type} (m : outcome A) (k : A -> outcome B) : outcome B :=
  match m with
  | Returns a => k a
  | Panics => Panics
  | Diverges => Diverges
  end.

Notation "x <- m ;; k" := (bind m (fun x => k))
  (at level 61, m at next level, right associativity).

(** Go's slice expression [s[lo:hi]] with its bounds check. *)
Definition slice {A : Type} (s : list A) (lo hi : Z) : outcome (list A) :=
  if (0 <=? lo) && (lo <=? hi) && (hi <=? len s)
  then Returns (firstn (Z.to_nat (hi - lo)) (skipn (Z.to_nat lo) s))
  else Panics.

(** ** Package unicode/utf8 (Go standard library) *)

Module utf8.

Definition rune := Z.

Definition RuneError : rune := 65533.   (* U+FFFD *)
Definition RuneSelf : Z := 128.
Definition MaxRune : rune := 1114111.   (* U+10FFFF *)
Definition UTFMax : Z := 4.

Definition surrogateMin : Z := 55296.
Definition surrogateMax : Z := 57343.

Definition maskx : Z := 63.
Definition mask2 : Z := 31.
Definition mask3 : Z := 15.
Definition mask4 : Z := 7.
Definition tx : Z := 128.
Definition t2 : Z := 192.
Definition t3 : Z := 224.
Definition t4 : Z := 240.

Definition rune1Max : Z := 127.
Definition rune2Max : Z := 2047.
Definition rune3Max : Z := 65535.

Definition locb : Z := 128.
Definition hicb : Z := 191.

(* Entries of the [first] table. *)
Definition xx : Z := 241.  (* 0xF1: invalid, size 1 *)
Definition as_ : Z := 240. (* 0xF0: ASCII, size 1 *)
Definition s1 : Z := 2.    (* 0x02 *)
Definition s2 : Z := 19.   (* 0x13 *)
Definition s3 : Z := 3.    (* 0x03 *)
Definition s4 : Z := 35.   (* 0x23 *)
Definition s5 : Z := 52.   (* 0x34 *)
Definition s6 : Z := 4.    (* 0x04 *)
Definition s7 : Z := 68.   (* 0x44 *)

(** The table [first]: information about the first byte of an
    encoding. *)
Definition first (b : Z) : Z :=
  if b <? 128 then as_           (* 0x00-0x7F *)
  else if b <? 194 then xx       (* 0x80-0xC1 *)
  else if b <? 224 then s1       (* 0xC2-0xDF *)
  else if b =? 224 then s2       (* 0xE0 *)
  else if b <? 237 then s3       (* 0xE1-0xEC *)
  else if b =? 237 then s4       (* 0xED *)
  else if b <? 240 then s3       (* 0xEE-0xEF *)
  else if b =? 240 then s5       (* 0xF0 *)
  else if b <? 244 then s6       (* 0xF1-0xF3 *)
  else if b =? 244 then s7       (* 0xF4 *)
  else xx.                       (* 0xF5-0xFF *)

(** The table [acceptRanges]: lowest and highest value accepted for the
    second byte. *)
Definition acceptRanges (i : Z) : Z * Z :=
  if i =? 0 then (locb, hicb)
  else if i =? 1 then (160, hicb)
  else if i =? 2 then (locb, 159)
  else if i =? 3 then (144, hicb)
  else if i =? 4 then (locb, 143)
  else (0, 0).

(** [DecodeRune p]: the first rune of [p] and its width in bytes;
    [(RuneError, 1)] for an invalid encoding, [(RuneError, 0)] for the
    empty input. *)
Definition DecodeRune (p : gostring) : rune * nat :=
  match p with
  | [] => (RuneError, 0%nat)
  | c0 :: p1 =>
    let p0 := byteZ c0 in
    let x := first p0 in
    if as_ <=? x then
      (* mask := rune(x) << 31 >> 31 selects RuneError exactly for xx *)
      ((if Z.odd x then RuneError else p0), 1%nat)
    else
      let sz := Z.land x 7 in
      let accept := acceptRanges (Z.shiftr x 4) in
      if len p <? sz then (RuneError, 1%nat) else
      match p1 with
      | [] => (RuneError, 1%nat)
      | c1 :: p2 =>
        let b1 := byteZ c1 in
        if (b1 <? fst accept) || (snd accept <? b1) then (RuneError, 1%nat) else
        if sz <=? 2 then
          (Z.lor (Z.shiftl (Z.land p0 mask2) 6) (Z.land b1 maskx), 2%nat)
        else
        match p2 with
        | [] => (RuneError, 1%nat)
        | c2 :: p3 =>
          let b2 := byteZ c2 in
          if (b2 <? locb) || (hicb <? b2) then (RuneError, 1%nat) else
          if sz <=? 3 then
            (Z.lor (Z.lor (Z.shiftl (Z.land p0 mask3) 12)
                          (Z.shiftl (Z.land b1 maskx) 6))
                   (Z.land b2 maskx), 3%nat)
          else
          match p3 with
          | [] => (RuneError, 1%nat)
          | c3 :: _ =>
            let b3 := byteZ c3 in
            if (b3 <? locb) || (hicb <? b3) then (RuneError, 1%nat) else
            (Z.lor (Z.lor (Z.lor (Z.shiftl (Z.land p0 mask4) 18)
                                 (Z.shiftl (Z.land b1 maskx) 12))
                          (Z.shiftl (Z.land b2 maskx) 6))
                   (Z.land b3 maskx), 4%nat)
          end
        end
      end
  end.

(** [RuneStart b]: [b] is not a continuation byte. *)
Definition RuneStart (c : ascii) : bool :=
  negb (Z.land (byteZ c) 192 =? 128).

(** The backward scan of [DecodeLastRune]:
    [for start--; start >= lim; start-- { if RuneStart(p[start]) { break } }],
    entered with [start] already decremented. At most [UTFMax - 1]
    positions are visited. *)
Fixpoint scanBack (n : nat) (p : gostring) (start lim : Z) : Z :=
  match n with
  | O => start
  | S n' =>
    if start <? lim then start
    else if RuneStart (nth (Z.to_nat start) p zero) then start
    else scanBack n' p (start - 1) lim
  end.

(** [DecodeLastRune p]: the last rune of [p] and its width in bytes. *)
Definition DecodeLastRune (p : gostring) : rune * nat :=
  let end_ := len p in
  if end_ =? 0 then (RuneError, 0%nat) else
  let start := end_ - 1 in
  let r := byteZ (nth (Z.to_nat start) p zero) in
  if r <? RuneSelf then (r, 1%nat) else
  let lim := Z.max (end_ - UTFMax) 0 in
  let start := scanBack 4 p (start - 1) lim in
  let start := Z.max start 0 in
  let '(r, size) := DecodeRune (skipn (Z.to_nat start) p) in
  if start + Z.of_nat size =? end_ then (r, size) else (RuneError, 1%nat).

(** [EncodeRune r]: the UTF-8 encoding of [r]; runes out of range and
    surrogates are encoded as [RuneError]. *)
Definition EncodeRune (r : rune) : gostring :=
  let i := r mod 4294967296 in   (* uint32(r) *)
  let enc3 (r : Z) :=
    [byte_of_Z (Z.lor t3 (Z.shiftr r 12));
     byte_of_Z (Z.lor tx (Z.land (Z.shiftr r 6) maskx));
     byte_of_Z (Z.lor tx (Z.land r maskx))] in
  if i <=? rune1Max then [byte_of_Z r]
  else if i <=? rune2Max then
    [byte_of_Z (Z.lor t2 (Z.shiftr r 6));
     byte_of_Z (Z.lor tx (Z.land r maskx))]
  else if (MaxRune <? i) || ((surrogateMin <=? i) && (i <=? surrogateMax))
  then enc3 RuneError
  else if i <=? rune3Max then enc3 r
  else
    [byte_of_Z (Z.lor t4 (Z.shiftr r 18));
     byte_of_Z (Z.lor tx (Z.land (Z.shiftr r 12) maskx));
     byte_of_Z (Z.lor tx (Z.land (Z.shiftr r 6) maskx));
     byte_of_Z (Z.lor tx (Z.land r maskx))].

(** Iteration [for pos, ch := range s]: the byte position, the rune and
    the number of bytes of every decoding step.  [skip] counts the bytes
    of the current rune still to be passed. *)
Fixpoint rangeFrom (skip pos : nat) (s : gostring) : list (nat * rune * nat) :=
  match s with
  | [] => []
  | _ :: s' =>
    match skip with
    | S k => rangeFrom k (S pos) s'
    | O =>
      let '(r, n) := DecodeRune s in
      (pos, r, n) :: rangeFrom (Nat.pred n) (S pos) s'
    end
  end.

Definition range (s : gostring) : list (nat * rune * nat) := rangeFrom 0 0 s.

(** The conversion [[]rune(s)]. *)
Definition runes (s : gostring) : list rune :=
  map (fun e => snd (fst e)) (range s).

(** The conversion [string(rs)] of a rune slice. *)
Definition string_of_runes (rs : list rune) : gostring :=
  flat_map EncodeRune rs.

End utf8.

Export utf8.

(** ** Package go-runewidth

    [RuneWidth] is the table lookup of the library's default condition
    (0 for control and combining characters, 2 for wide East Asian
    characters, 1 otherwise); it is a parameter here.  [StringWidth] and
    [Truncate] follow the library release this source was written
    against: both work rune by rune on [[]rune(s)], and [Truncate]
    converts the kept runes back to a string. *)

Module runewidth.
Section Condition.

Variable RuneWidth : rune -> Z.

Definition StringWidth (s : gostring) : Z :=
  fold_left (fun width r => width + RuneWidth r) (runes s) 0.

(** The loop of [Truncate]: the number [i] of runes kept. *)
Fixpoint truncateLoop (r : list rune) (w width : Z) : nat :=
  match r with
  | [] => 0%nat
  | x :: r' =>
    let cw := RuneWidth x in
    if w <? width + cw then 0%nat
    else S (truncateLoop r' w (width + cw))
  end.

Definition Truncate (s : gostring) (w : Z) (tail : gostring) : gostring :=
  if StringWidth s <=? w then s
  else
    let r := runes s in
    let tw := StringWidth tail in
    let w := w - tw in
    let i := truncateLoop r w 0 in
    string_of_runes (firstn i r) ++ tail.

End Condition.
End runewidth.

(** ** Package regexp

    A compiled expression is represented by its anchored matcher:
    [matchAt re s] is the leftmost-first match of [re] that starts at the
    head of [s] ([s] is the rest of the text, so the matcher sees the end
    of the text), as the length of the match and the text of its capture
    groups.  None of the expressions of this program matches the empty
    string or looks behind the start of the match, so the search
    functions below are those of the library. *)

Module regexp.

Record Regexp := MustCompile {
  matchAt : gostring -> option (nat * list gostring)
}.

(** A match: start, end, capture groups (group 1 first). *)
Definition Match := (nat * nat * list gostring)%type.

(** All successive non-overlapping matches, from left to right; [skip]
    counts the bytes of the current match still to be passed. *)
Fixpoint findFrom (re : Regexp) (skip pos : nat) (s : gostring) : list Match :=
  match s with
  | [] => []
  | _ :: s' =>
    match skip with
    | S k => findFrom re k (S pos) s'
    | O =>
      match matchAt re s with
      | Some (S n, gs) => (pos, (pos + S n)%nat, gs) :: findFrom re n (S pos) s'
      | _ => findFrom re 0 (S pos) s'
      end
    end
  end.

Definition findAll (re : Regexp) (s : gostring) : list Match := findFrom re 0 0 s.

Definition FindAllStringIndex (re : Regexp) (s : gostring) : list (nat * nat) :=
  map (fun m : Match => fst m) (findAll re s).

(** Element 0 of a submatch is the whole match. *)
Definition FindAllStringSubmatch (re : Regexp) (s : gostring) : list (list gostring) :=
  map (fun m : Match =>
         let '(b, e, gs) := m in firstn (e - b) (skipn b s) :: gs)
      (findAll re s).

Definition FindStringIndex (re : Regexp) (s : gostring) : option (nat * nat) :=
  hd_error (FindAllStringIndex re s).

Definition FindIndex (re : Regexp) (b : gostring) : option (nat * nat) :=
  FindStringIndex re b.

(** Template expansion for [ReplaceAllString]: [$n] stands for capture
    group [n], [$$] for a dollar sign.  (The templates of this program
    use numbered groups only.) *)
Inductive tstate := Plain | Dollar | Num (n : nat).

Definition isDigit (c : ascii) : bool := (48 <=? byteZ c) && (byteZ c <=? 57).

Definition digit (c : ascii) : nat := Z.to_nat (byteZ c - 48).

Fixpoint expandFrom (st : tstate) (template : gostring) (m : list gostring) : gostring :=
  match template with
  | [] =>
    match st with
    | Plain => []
    | Dollar => ["$"%char]
    | Num n => nth n m []
    end
  | c :: t' =>
    match st with
    | Plain =>
      if Ascii.eqb c "$" then expandFrom Dollar t' m
      else c :: expandFrom Plain t' m
    | Dollar =>
      if Ascii.eqb c "$" then "$"%char :: expandFrom Plain t' m
      else if isDigit c then expandFrom (Num (digit c)) t' m
      else "$"%char :: c :: expandFrom Plain t' m
    | Num n =>
      if isDigit c then expandFrom (Num (10 * n + digit c)) t' m
      else nth n m [] ++
           (if Ascii.eqb c "$" then expandFrom Dollar t' m
            else c :: expandFrom Plain t' m)
    end
  end.

Definition expand (template : gostring) (m : list gostring) : gostring :=
  expandFrom Plain template m.

(** The text between the matches is copied, every match is replaced by
    its expanded template. *)
Fixpoint replaceFrom (re : Regexp) (repl : gostring) (skip : nat) (s : gostring) : gostring :=
  match s with
  | [] => []
  | c :: s' =>
    match skip with
    | S k => replaceFrom re repl k s'
    | O =>
      match matchAt re s with
      | Some (S n, gs) =>
        expand repl (firstn (S n) s :: gs) ++ replaceFrom re repl n s'
      | _ => c :: replaceFrom re repl 0 s'
      end
    end
  end.

Definition ReplaceAllString (re : Regexp) (src repl : gostring) : gostring :=
  replaceFrom re repl 0 src.

(** [Split s (-1)]: the pieces of [s] between the matches; [cur] is the
    piece being collected, in reverse. *)
Fixpoint splitFrom (re : Regexp) (skip : nat) (cur : gostring) (s : gostring) : list gostring :=
  match s with
  | [] => [rev cur]
  | c :: s' =>
    match skip with
    | S k => splitFrom re k cur s'
    | O =>
      match matchAt re s with
      | Some (S n, _) => rev cur :: splitFrom re n [] s'
      | _ => splitFrom re 0 (c :: cur) s'
      end
    end
  end.

Definition Split (re : Regexp) (s : gostring) : list gostring := splitFrom re 0 [] s.

End regexp.

(** ** Character classes of the expressions *)

Definition inRange (lo hi : Z) (c : ascii) : bool :=
  (lo <=? byteZ c) && (byteZ c <=? hi).

Definition isLetter (c : ascii) : bool := inRange 65 90 c || inRange 97 122 c.

Definition isAlnum (c : ascii) : bool := inRange 48 57 c || isLetter c.

Definition isHex (c : ascii) : bool :=
  inRange 48 57 c || inRange 65 70 c || inRange 97 102 c.

(** [\s]: tab, line feed, form feed, carriage return, space. *)
Definition isSpace (c : ascii) : bool :=
  let b := byteZ c in
  (b =? 9) || (b =? 10) || (b =? 12) || (b =? 13) || (b =? 32).

(** [[[:punct:]]]: ASCII punctuation. *)
Definition isPunct (c : ascii) : bool :=
  inRange 33 47 c || inRange 58 64 c || inRange 91 96 c || inRange 123 126 c.

(** The class [[a-zA-Z0-9_,;: \-\.]] of region identifiers. *)
Definition isRegionChar (c : ascii) : bool :=
  let b := byteZ c in
  isAlnum c || (b =? 95) || (b =? 44) || (b =? 59) || (b =? 58) || (b =? 32)
  || (b =? 45) || (b =? 46).

Fixpoint takeWhile (f : ascii -> bool) (s : gostring) : gostring :=
  match s with
  | [] => []
  | c :: s' => if f c then c :: takeWhile f s' else []
  end.

Fixpoint dropWhile (f : ascii -> bool) (s : gostring) : gostring :=
  match s with
  | [] => []
  | c :: s' => if f c then dropWhile f s' else s
  end.

(** ** The expressions of the package

    The package-level expressions live in a file of the repository that
    defines shared helpers; they are written here from the markup
    grammar of the specification. *)

(** Modelled from the spec: the package-level expression [colorPattern],
    the color tag [\[([A-Za-z]+|#[0-9A-Fa-f]{6})\]]. *)
Definition colorPattern : regexp.Regexp :=
  regexp.MustCompile (fun s =>
    match s with
    | "["%char :: rest =>
      let name := takeWhile isLetter rest in
      match name, skipn (length name) rest with
      | _ :: _, "]"%char :: _ => Some ((2 + length name)%nat, [name])
      | _, _ =>
        match rest with
        | "#"%char :: h1 :: h2 :: h3 :: h4 :: h5 :: h6 :: "]"%char :: _ =>
          if forallb isHex [h1; h2; h3; h4; h5; h6]
          then Some (9%nat, ["#"%char :: [h1; h2; h3; h4; h5; h6]])
          else None
        | _ => None
        end
      end
    | _ => None
    end).

(** Modelled from the spec: the package-level expression
    [regionPattern], the region tag [\[\x22([A-Za-z0-9_,;: .\-]+)\x22\]]
    together with the region-close tag, whose identifier is empty: the
    same expression with a starred class ([\x22] is the double quote). *)
Definition regionPattern : regexp.Regexp :=
  regexp.MustCompile (fun s =>
    match s with
    | "["%char :: q :: rest =>
      if Ascii.eqb q quote then
        let id := takeWhile isRegionChar rest in
        match skipn (length id) rest with
        | q' :: "]"%char :: _ =>
          if Ascii.eqb q' quote then Some ((4 + length id)%nat, [id]) else None
        | _ => None
        end
      else None
    | _ => None
    end).

(** Modelled from the spec: the package-level expression [spacePattern],
    a run of whitespace, [\s+]. *)
Definition spacePattern : regexp.Regexp :=
  regexp.MustCompile (fun s =>
    match takeWhile isSpace s with
    | [] => None
    | run => Some (length run, [])
    end).

(** Modelled from the spec: the package-level expression
    [boundaryPattern], a word or punctuation boundary: a punctuation
    character with the whitespace after it, or a run of whitespace,
    [( [[:punct:]]\s* | \s+ )] (blanks added). *)
Definition boundaryPattern : regexp.Regexp :=
  regexp.MustCompile (fun s =>
    match s with
    | [] => None
    | c :: s' =>
      if isPunct c then
        let m := c :: takeWhile isSpace s' in Some (length m, [m])
      else
        match takeWhile isSpace s with
        | [] => None
        | run => Some (length run, [run])
        end
    end).

(** The expressions compiled inside [Write]. *)

(** [openColor], an unterminated color tag at the end of the text:
    [\[( [a-zA-Z]* | #[0-9a-zA-Z]* )$] (blanks added). *)
Definition openColor : regexp.Regexp :=
  regexp.MustCompile (fun s =>
    match s with
    | "["%char :: rest =>
      if forallb isLetter rest then Some (length s, [rest])
      else
        match rest with
        | "#"%char :: rest' =>
          if forallb isAlnum rest' then Some (length s, [rest]) else None
        | _ => None
        end
    | _ => None
    end).

(** [openRegion], an unterminated region tag at the end of the text:
    [\[\x22[a-zA-Z0-9_,;: \-\.]*\x22?$]. *)
Definition openRegion : regexp.Regexp :=
  regexp.MustCompile (fun s =>
    match s with
    | "["%char :: q :: rest =>
      if Ascii.eqb q quote then
        match dropWhile isRegionChar rest with
        | [] => Some (length s, [])
        | [q'] => if Ascii.eqb q' quote then Some (length s, []) else None
        | _ => None
        end
      else None
    | _ => None
    end).

(** [newLine], a line break: [\r?\n]. *)
Definition newLine : regexp.Regexp :=
  regexp.MustCompile (fun s =>
    match s with
    | c :: s' =>
      if byteZ c =? 10 then Some (1%nat, [])
      else if byteZ c =? 13 then
        match s' with
        | d :: _ => if byteZ d =? 10 then Some (2%nat, []) else None
        | [] => None
        end
      else None
    | [] => None
    end).

(** ** The text view *)

(** [textViewIndex]: information about each line displayed in the text
    view. *)
Record textViewIndex := mkIndex {
  Line : Z;          (* The index into the buffer. *)
  Pos : Z;           (* The byte position in the buffer line. *)
  NextPos : Z;       (* The byte index of the next character in this buffer line. *)
  Width : Z;         (* The screen width of this line. *)
  Color : Z;         (* The starting color. *)
  Region : gostring  (* The starting region ID. *)
}.

(** [TextView]: the fields of the Go struct.  The embedded box and the
    mutex are left out: the box only supplies the inner rectangle, which
    [Draw] takes as arguments, and every operation runs under the lock.
    The [done] handler is not used by the operations modelled here. *)
Record TextView := mkTextView {
  buffer : list gostring;
  recentBytes : gostring;
  index : list textViewIndex;
  align : Z;
  fromHighlight : Z;
  toHighlight : Z;
  highlights : list gostring;
  lastWidth : Z;
  longestLine : Z;
  lineOffset : Z;
  trackEnd : bool;
  columnOffset : Z;
  pageSize : Z;
  scrollable : bool;
  wrap : bool;
  wordWrap : bool;
  textColor : Z;
  dynamicColors : bool;
  regions : bool;
  scrollToHighlights : bool;
  changed : bool
}.

Definition set_buffer (v : list gostring) (t : TextView) : TextView :=
  mkTextView v (recentBytes t) (index t) (align t) (fromHighlight t) (toHighlight t) (highlights t) (lastWidth t) (longestLine t) (lineOffset t) (trackEnd t) (columnOffset t) (pageSize t) (scrollable t) (wrap t) (wordWrap t) (textColor t) (dynamicColors t) (regions t) (scrollToHighlights t) (changed t).

Definition set_recentBytes (v : gostring) (t : TextView) : TextView :=
  mkTextView (buffer t) v (index t) (align t) (fromHighlight t) (toHighlight t) (highlights t) (lastWidth t) (longestLine t) (lineOffset t) (trackEnd t) (columnOffset t) (pageSize t) (scrollable t) (wrap t) (wordWrap t) (textColor t) (dynamicColors t) (regions t) (scrollToHighlights t) (changed t).

Definition set_index (v : list textViewIndex) (t : TextView) : TextView :=
  mkTextView (buffer t) (recentBytes t) v (align t) (fromHighlight t) (toHighlight t) (highlights t) (lastWidth t) (longestLine t) (lineOffset t) (trackEnd t) (columnOffset t) (pageSize t) (scrollable t) (wrap t) (wordWrap t) (textColor t) (dynamicColors t) (regions t) (scrollToHighlights t) (changed t).

Definition set_align (v : Z) (t : TextView) : TextView :=
  mkTextView (buffer t) (recentBytes t) (index t) v (fromHighlight t) (toHighlight t) (highlights t) (lastWidth t) (longestLine t) (lineOffset t) (trackEnd t) (columnOffset t) (pageSize t) (scrollable t) (wrap t) (wordWrap t) (textColor t) (dynamicColors t) (regions t) (scrollToHighlights t) (changed t).

Definition set_fromHighlight (v : Z) (t : TextView) : TextView :=
  mkTextView (buffer t) (recentBytes t) (index t) (align t) v (toHighlight t) (highlights t) (lastWidth t) (longestLine t) (lineOffset t) (trackEnd t) (columnOffset t) (pageSize t) (scrollable t) (wrap t) (wordWrap t) (textColor t) (dynamicColors t) (regions t) (scrollToHighlights t) (changed t).

Definition set_toHighlight (v : Z) (t : TextView) : TextView :=
  mkTextView (buffer t) (recentBytes t) (index t) (align t) (fromHighlight t) v (highlights t) (lastWidth t) (longestLine t) (lineOffset t) (trackEnd t) (columnOffset t) (pageSize t) (scrollable t) (wrap t) (wordWrap t) (textColor t) (dynamicColors t) (regions t) (scrollToHighlights t) (changed t).

Definition set_highlights (v : list gostring) (t : TextView) : TextView :=
  mkTextView (buffer t) (recentBytes t) (index t) (align t) (fromHighlight t) (toHighlight t) v (lastWidth t) (longestLine t) (lineOffset t) (trackEnd t) (columnOffset t) (pageSize t) (scrollable t) (wrap t) (wordWrap t) (textColor t) (dynamicColors t) (regions t) (scrollToHighlights t) (changed t).

Definition set_lastWidth (v : Z) (t : TextView) : TextView :=
  mkTextView (buffer t) (recentBytes t) (index t) (align t) (fromHighlight t) (toHighlight t) (highlights t) v (longestLine t) (lineOffset t) (trackEnd t) (columnOffset t) (pageSize t) (scrollable t) (wrap t) (wordWrap t) (textColor t) (dynamicColors t) (regions t) (scrollToHighlights t) (changed t).

Definition set_longestLine (v : Z) (t : TextView) : TextView :=
  mkTextView (buffer t) (recentBytes t) (index t) (align t) (fromHighlight t) (toHighlight t) (highlights t) (lastWidth t) v (lineOffset t) (trackEnd t) (columnOffset t) (pageSize t) (scrollable t) (wrap t) (wordWrap t) (textColor t) (dynamicColors t) (regions t) (scrollToHighlights t) (changed t).

Definition set_lineOffset (v : Z) (t : TextView) : TextView :=
  mkTextView (buffer t) (recentBytes t) (index t) (align t) (fromHighlight t) (toHighlight t) (highlights t) (lastWidth t) (longestLine t) v (trackEnd t) (columnOffset t) (pageSize t) (scrollable t) (wrap t) (wordWrap t) (textColor t) (dynamicColors t) (regions t) (scrollToHighlights t) (changed t).

Definition set_trackEnd (v : bool) (t : TextView) : TextView :=
  mkTextView (buffer t) (recentBytes t) (index t) (align t) (fromHighlight t) (toHighlight t) (highlights t) (lastWidth t) (longestLine t) (lineOffset t) v (columnOffset t) (pageSize t) (scrollable t) (wrap t) (wordWrap t) (textColor t) (dynamicColors t) (regions t) (scrollToHighlights t) (changed t).

Definition set_columnOffset (v : Z) (t : TextView) : TextView :=
  mkTextView (buffer t) (recentBytes t) (index t) (align t) (fromHighlight t) (toHighlight t) (highlights t) (lastWidth t) (longestLine t) (lineOffset t) (trackEnd t) v (pageSize t) (scrollable t) (wrap t) (wordWrap t) (textColor t) (dynamicColors t) (regions t) (scrollToHighlights t) (changed t).

Definition set_pageSize (v : Z) (t : TextView) : TextView :=
  mkTextView (buffer t) (recentBytes t) (index t) (align t) (fromHighlight t) (toHighlight t) (highlights t) (lastWidth t) (longestLine t) (lineOffset t) (trackEnd t) (columnOffset t) v (scrollable t) (wrap t) (wordWrap t) (textColor t) (dynamicColors t) (regions t) (scrollToHighlights t) (changed t).

Definition set_scrollable (v : bool) (t : TextView) : TextView :=
  mkTextView (buffer t) (recentBytes t) (index t) (align t) (fromHighlight t) (toHighlight t) (highlights t) (lastWidth t) (longestLine t) (lineOffset t) (trackEnd t) (columnOffset t) (pageSize t) v (wrap t) (wordWrap t) (textColor t) (dynamicColors t) (regions t) (scrollToHighlights t) (changed t).

Definition set_wrap (v : bool) (t : TextView) : TextView :=
  mkTextView (buffer t) (recentBytes t) (index t) (align t) (fromHighlight t) (toHighlight t) (highlights t) (lastWidth t) (longestLine t) (lineOffset t) (trackEnd t) (columnOffset t) (pageSize t) (scrollable t) v (wordWrap t) (textColor t) (dynamicColors t) (regions t) (scrollToHighlights t) (changed t).

Definition set_wordWrap (v : bool) (t : TextView) : TextView :=
  mkTextView (buffer t) (recentBytes t) (index t) (align t) (fromHighlight t) (toHighlight t) (highlights t) (lastWidth t) (longestLine t) (lineOffset t) (trackEnd t) (columnOffset t) (pageSize t) (scrollable t) (wrap t) v (textColor t) (dynamicColors t) (regions t) (scrollToHighlights t) (changed t).

Definition set_textColor (v : Z) (t : TextView) : TextView :=
  mkTextView (buffer t) (recentBytes t) (index t) (align t) (fromHighlight t) (toHighlight t) (highlights t) (lastWidth t) (longestLine t) (lineOffset t) (trackEnd t) (columnOffset t) (pageSize t) (scrollable t) (wrap t) (wordWrap t) v (dynamicColors t) (regions t) (scrollToHighlights t) (changed t).

Definition set_dynamicColors (v : bool) (t : TextView) : TextView :=
  mkTextView (buffer t) (recentBytes t) (index t) (align t) (fromHighlight t) (toHighlight t) (highlights t) (lastWidth t) (longestLine t) (lineOffset t) (trackEnd t) (columnOffset t) (pageSize t) (scrollable t) (wrap t) (wordWrap t) (textColor t) v (regions t) (scrollToHighlights t) (changed t).

Definition set_regions (v : bool) (t : TextView) : TextView :=
  mkTextView (buffer t) (recentBytes t) (index t) (align t) (fromHighlight t) (toHighlight t) (highlights t) (lastWidth t) (longestLine t) (lineOffset t) (trackEnd t) (columnOffset t) (pageSize t) (scrollable t) (wrap t) (wordWrap t) (textColor t) (dynamicColors t) v (scrollToHighlights t) (changed t).

Definition set_scrollToHighlights (v : bool) (t : TextView) : TextView :=
  mkTextView (buffer t) (recentBytes t) (index t) (align t) (fromHighlight t) (toHighlight t) (highlights t) (lastWidth t) (longestLine t) (lineOffset t) (trackEnd t) (columnOffset t) (pageSize t) (scrollable t) (wrap t) (wordWrap t) (textColor t) (dynamicColors t) (regions t) v (changed t).

Definition set_changed (v : bool) (t : TextView) : TextView :=
  mkTextView (buffer t) (recentBytes t) (index t) (align t) (fromHighlight t) (toHighlight t) (highlights t) (lastWidth t) (longestLine t) (lineOffset t) (trackEnd t) (columnOffset t) (pageSize t) (scrollable t) (wrap t) (wordWrap t) (textColor t) (dynamicColors t) (regions t) (scrollToHighlights t) v.

(** Modelled from the spec: the alignment constants [AlignLeft],
    [AlignCenter] and [AlignRight] (left | center | right), declared
    with the package's shared helpers. *)
Definition AlignLeft : Z := 0.
Definition AlignCenter : Z := 1.
Definition AlignRight : Z := 2.

(** [NewTextView] returns a new text view; [primaryTextColor] stands for
    [Styles.PrimaryTextColor]. *)
Definition NewTextView (primaryTextColor : Z) : TextView :=
  {| buffer := []; recentBytes := []; index := [];
     align := AlignLeft;
     fromHighlight := 0; toHighlight := 0;
     highlights := [];
     lastWidth := 0; longestLine := 0;
     lineOffset := -1;
     trackEnd := false;
     columnOffset := 0; pageSize := 0;
     scrollable := true;
     wrap := true;
     wordWrap := false;
     textColor := primaryTextColor;
     dynamicColors := false;
     regions := false;
     scrollToHighlights := false;
     changed := false |}.

Definition SetScrollable (v : bool) (t : TextView) : TextView :=
  let t := set_scrollable v t in
  if negb v then set_trackEnd true t else t.

Definition SetWrap (v : bool) (t : TextView) : TextView :=
  let t := if Bool.eqb (wrap t) v then t else set_index [] t in
  set_wrap v t.

Definition SetWordWrap (wrapOnWords : bool) (t : TextView) : TextView :=
  let t := if Bool.eqb (wordWrap t) wrapOnWords then t else set_index [] t in
  set_wordWrap wrapOnWords t.

Definition SetTextAlign (v : Z) (t : TextView) : TextView :=
  let t := if align t =? v then t else set_index [] t in
  set_align v t.

Definition SetDynamicColors (dynamic : bool) (t : TextView) : TextView :=
  let t := if Bool.eqb (dynamicColors t) dynamic then t else set_index [] t in
  set_dynamicColors dynamic t.

Definition SetRegions (v : bool) (t : TextView) : TextView :=
  let t := if Bool.eqb (regions t) v then t else set_index [] t in
  set_regions v t.

Definition Clear (t : TextView) : TextView :=
  set_index [] (set_recentBytes [] (set_buffer [] t)).

(** Membership in the set of highlighted region IDs. *)
Definition highlighted_in (hl : list gostring) (id : gostring) : bool :=
  existsb (gostring_eqb id) hl.

(** [Highlight]: empty region strings are ignored. *)
Definition Highlight (regionIDs : list gostring) (t : TextView) : TextView :=
  set_index []
    (set_highlights
       (filter (fun id => negb (gostring_eqb id [])) regionIDs) t).

Definition ScrollToHighlight (t : TextView) : TextView :=
  match highlights t with
  | [] => t
  | _ :: _ =>
    if negb (scrollable t) || negb (regions t) then t
    else set_trackEnd false (set_scrollToHighlights true (set_index [] t))
  end.

(** The last element of a slice, if any. *)
Fixpoint last_error {A : Type} (l : list A) : option A :=
  match l with
  | [] => None
  | [x] => Some x
  | _ :: l' => last_error l'
  end.

(** Indexing [s[i]] of a slice by a Go [int]: out of range panics. *)
Definition at_ {A : Type} (s : list A) (i : Z) : outcome A :=
  if (0 <=? i) && (i <? len s) then
    match nth_error s (Z.to_nat i) with
    | Some x => Returns x
    | None => Panics
    end
  else Panics.

Fixpoint mapM {A B : Type} (f : A -> outcome B) (l : list A) : outcome (list B) :=
  match l with
  | [] => Returns []
  | x :: l' => y <- f x ;; ys <- mapM f l' ;; Returns (y :: ys)
  end.

(** ** The operations of the text view

    Parameters of the environment:
    - [RuneWidth], the width table of go-runewidth;
    - [GetColor], the color lookup [tcell.GetColor];
    - [escapePattern], the package-level expression for escaped tags,
      whose matches are one byte longer than their replacement
      [[$1$2]];
    - [TabSize], the package variable of that name. *)

Section Engine.

Variable RuneWidth : rune -> Z.
Variable GetColor : gostring -> Z.
Variable escapePattern : regexp.Regexp.
Variable TabSize : Z.

Definition StringWidth : gostring -> Z := runewidth.StringWidth RuneWidth.

(** *** Splitting a line ([reindexBuffer], "Split the line if required") *)

(** One turn of the splitting loop: the piece [extract] carved from the
    front of [s]. *)
Definition carve (wordWrap : bool) (width : Z) (s : gostring) : gostring :=
  let extract := runewidth.Truncate RuneWidth s width [] in
  if wordWrap && (length extract <? length s)%nat then
    (* Add any spaces from the next line. *)
    let extract :=
      match regexp.FindStringIndex spacePattern (skipn (length extract) s) with
      | Some (O, e) => firstn (length extract + e) s
      | _ => extract
      end in
    (* Can we split before the mandatory end? *)
    match last_error (regexp.FindAllStringIndex boundaryPattern extract) with
    | Some (_, e) => firstn e extract
    | None => extract
    end
  else extract.

(** The loop [for len(str) > 0].  A piece longer than the rest of the
    line makes [str[len(extract):]] panic; an empty piece leaves the
    loop state unchanged, so the loop never ends.  Every other turn
    shortens [s], hence [length s] turns are enough. *)
Fixpoint wrapLoop (fuel : nat) (wordWrap : bool) (width : Z) (s : gostring)
  : outcome (list gostring) :=
  match s with
  | [] => Returns []
  | _ :: _ =>
    let extract := carve wordWrap width s in
    if (length s <? length extract)%nat then Panics
    else
      match extract, fuel with
      | [], _ => Diverges
      | _ :: _, O => Diverges
      | _ :: _, S fuel' =>
        rest <- wrapLoop fuel' wordWrap width (skipn (length extract) s) ;;
        Returns (extract :: rest)
      end
  end.

Definition splitLines (wrap wordWrap : bool) (width : Z) (s : gostring)
  : outcome (list gostring) :=
  if wrap && (0 <? len s) then wrapLoop (length s) wordWrap width s
  else Returns [s].

(** *** Tags of a line *)

Record lineTags := mkLineTags {
  colorTagIndices : list (nat * nat);
  colorTags : list (list gostring);
  regionIndices : list (nat * nat);
  regionTags : list (list gostring);   (* the local variable [regions] *)
  escapeIndices : list (nat * nat)
}.

(** Find and remove the tags of a buffer line. *)
Definition stripTags (dynamicColors regions : bool) (s : gostring) : lineTags * gostring :=
  let '(cti, ct, s) :=
    if dynamicColors then
      (regexp.FindAllStringIndex colorPattern s,
       regexp.FindAllStringSubmatch colorPattern s,
       regexp.ReplaceAllString colorPattern s [])
    else ([], [], s) in
  let '(ri, rt, s) :=
    if regions then
      (regexp.FindAllStringIndex regionPattern s,
       regexp.FindAllStringSubmatch regionPattern s,
       regexp.ReplaceAllString regionPattern s [])
    else ([], [], s) in
  let '(ei, s) :=
    if dynamicColors || regions then
      (regexp.FindAllStringIndex escapePattern s,
       regexp.ReplaceAllString escapePattern s (str "[$1$2]"))
    else ([], s) in
  (mkLineTags cti ct ri rt ei, s).

(** *** Creating the index from the split lines *)

(** The variables of [reindexBuffer] that the tag loop updates. *)
Record cursor := mkCursor {
  originalPos : Z;
  colorPos : nat;
  regionPos : nat;
  escapePos : nat;
  color : Z;
  regionID : gostring;
  fromHl : Z;   (* t.fromHighlight *)
  toHl : Z      (* t.toHighlight *)
}.

(** [pos < len(indices) && indices[pos][0] <= limit] *)
Definition tagDue (indices : list (nat * nat)) (pos : nat) (limit : Z) : option (nat * nat) :=
  match nth_error indices pos with
  | Some (b, e) => if Z.of_nat b <=? limit then Some (b, e) else None
  | None => None
  end.

(** The loop "Shift original position with tags".  [nIndex] is
    [len(t.index)]; every turn but the last advances one of the three
    tag positions, so [fuel] beyond the number of tags is never used
    up. *)
Fixpoint shiftTags (fuel : nat) (tg : lineTags) (hl : list gostring)
         (nIndex lineLength : Z) (c : cursor) : cursor :=
  match fuel with
  | O => c
  | S fuel' =>
    let limit := originalPos c + lineLength in
    match tagDue (colorTagIndices tg) (colorPos c) limit with
    | Some (b, e) =>
      (* Process color tags. *)
      shiftTags fuel' tg hl nIndex lineLength
        (mkCursor (originalPos c + (Z.of_nat e - Z.of_nat b))
                  (S (colorPos c)) (regionPos c) (escapePos c)
                  (GetColor (nth 1 (nth (colorPos c) (colorTags tg) []) []))
                  (regionID c) (fromHl c) (toHl c))
    | None =>
      match tagDue (regionIndices tg) (regionPos c) limit with
      | Some (b, e) =>
        (* Process region tags. *)
        let id := nth 1 (nth (regionPos c) (regionTags tg) []) [] in
        let '(from, to) :=
          (* Update highlight range. *)
          if highlighted_in hl id then
            if fromHl c <? 0 then (nIndex, nIndex)
            else if toHl c <? nIndex then (fromHl c, nIndex)
            else (fromHl c, toHl c)
          else (fromHl c, toHl c) in
        shiftTags fuel' tg hl nIndex lineLength
          (mkCursor (originalPos c + (Z.of_nat e - Z.of_nat b))
                    (colorPos c) (S (regionPos c)) (escapePos c)
                    (color c) id from to)
      | None =>
        match tagDue (escapeIndices tg) (escapePos c) limit with
        | Some _ =>
          (* Process escape tags. *)
          shiftTags fuel' tg hl nIndex lineLength
            (mkCursor (originalPos c + 1)
                      (colorPos c) (regionPos c) (S (escapePos c))
                      (color c) (regionID c) (fromHl c) (toHl c))
        | None => c
        end
      end
    end
  end.

Definition tagFuel (tg : lineTags) : nat :=
  S (length (colorTagIndices tg) + length (regionIndices tg)
     + length (escapeIndices tg)).

(** The loop [for _, splitLine := range splitLines]: one index entry
    per piece, appended to [idx]. *)
Fixpoint indexPieces (tg : lineTags) (hl : list gostring) (bufferIndex : Z)
         (pieces : list gostring) (idx : list textViewIndex) (c : cursor)
  : list textViewIndex * cursor :=
  match pieces with
  | [] => (idx, c)
  | splitLine :: rest =>
    let pos := originalPos c in
    let color0 := color c in
    let region0 := regionID c in
    (* Shift original position with tags. *)
    let lineLength := len splitLine in
    let c := shiftTags (tagFuel tg) tg hl (len idx) lineLength c in
    (* Advance to next line. *)
    let next := originalPos c + lineLength in
    let c := mkCursor next (colorPos c) (regionPos c) (escapePos c)
                      (color c) (regionID c) (fromHl c) (toHl c) in
    (* Append this line. *)
    let line := mkIndex bufferIndex pos next (StringWidth splitLine) color0 region0 in
    indexPieces tg hl bufferIndex rest (idx ++ [line]) c
  end.

(** "Word-wrapped lines may have trailing whitespace. Remove it.":
    the body of the loop over all index entries. *)
Definition trimEntry (buf : list gostring) (line : textViewIndex) : outcome textViewIndex :=
  bl <- at_ buf (Line line) ;;
  s <- slice bl (Pos line) (NextPos line) ;;
  match last_error (regexp.FindAllStringIndex spacePattern s) with
  | Some (b, e) =>
    if (e =? length s)%nat then
      let oldNextPos := NextPos line in
      let next := NextPos line - (Z.of_nat e - Z.of_nat b) in
      cut <- slice bl next oldNextPos ;;
      Returns (mkIndex (Line line) (Pos line) next
                       (Width line - StringWidth cut)
                       (Color line) (Region line))
    else Returns line
  | None => Returns line
  end.

(** The state carried from one buffer line to the next. *)
Record indexer := mkIndexer {
  ix_index : list textViewIndex;   (* t.index *)
  ix_from : Z;                     (* t.fromHighlight *)
  ix_to : Z;                       (* t.toHighlight *)
  ix_color : Z;                    (* color *)
  ix_region : gostring             (* regionID *)
}.

(** The body of [for bufferIndex, str := range t.buffer]. *)
Definition indexLine (t : TextView) (width : Z) (bufferIndex : Z) (s : gostring)
           (st : indexer) : outcome indexer :=
  let '(tg, s) := stripTags (dynamicColors t) (regions t) s in
  pieces <- splitLines (wrap t) (wordWrap t) width s ;;
  let '(idx, c) :=
    indexPieces tg (highlights t) bufferIndex pieces (ix_index st)
      (mkCursor 0 0 0 0 (ix_color st) (ix_region st) (ix_from st) (ix_to st)) in
  idx <- (if wrap t && wordWrap t then mapM (trimEntry (buffer t)) idx
          else Returns idx) ;;
  Returns (mkIndexer idx (fromHl c) (toHl c) (color c) (regionID c)).

Fixpoint indexBuffer (t : TextView) (width : Z) (bufferIndex : Z)
         (lines : list gostring) (st : indexer) : outcome indexer :=
  match lines with
  | [] => Returns st
  | s :: rest =>
    st <- indexLine t width bufferIndex s st ;;
    indexBuffer t width (bufferIndex + 1) rest st
  end.

(** "Calculate longest line." *)
Definition longest (idx : list textViewIndex) : Z :=
  fold_left (fun m line => if m <? Width line then Width line else m) idx 0.

(** The body of [reindexBuffer] once the index is known to be nil: the
    index is built again from the buffer alone. *)
Definition rebuildIndex (width : Z) (t : TextView) : outcome TextView :=
  let t := set_index [] t in
  let t := set_toHighlight (-1) (set_fromHighlight (-1) t) in
  (* If there's no space, there's no index. *)
  if width <? 1 then Returns t
  else
    (* Go through each line in the buffer. *)
    st <- indexBuffer t width 0 (buffer t)
            (mkIndexer [] (-1) (-1) (textColor t) []) ;;
    let t := set_toHighlight (ix_to st)
               (set_fromHighlight (ix_from st)
                  (set_index (ix_index st) t)) in
    (* Calculate longest line. *)
    Returns (set_longestLine (longest (index t)) t).

(** [reindexBuffer] re-indexes the buffer. *)
Definition reindexBuffer (width : Z) (t : TextView) : outcome TextView :=
  match index t with
  | _ :: _ => Returns t   (* Nothing has changed. *)
  | [] => rebuildIndex width t
  end.

(** *** Draw: the state changes of drawing into an inner rectangle of
    the given width and height *)

(** The head of [Draw]: record the page size, drop the index if the
    width has changed, re-index. *)
Definition drawReindex (width height : Z) (t : TextView) : outcome TextView :=
  let t := set_pageSize height t in
  (* If the width has changed, we need to reindex. *)
  let t := if width =? lastWidth t then t else set_index [] t in
  let t := set_lastWidth width t in
  (* Re-index. *)
  reindexBuffer width t.

(** "Move to highlighted regions." and the reset of the one-shot flag. *)
Definition moveToHighlights (height : Z) (t : TextView) : TextView :=
  let t :=
    if regions t && scrollToHighlights t && (0 <=? fromHighlight t) then
      (* Do we fit the entire height? *)
      if toHighlight t - fromHighlight t + 1 <? height then
        (* Yes, let's center the highlights. *)
        set_lineOffset (Z.quot (fromHighlight t + toHighlight t - height) 2) t
      else
        (* No, let's move to the start of the highlights. *)
        set_lineOffset (fromHighlight t) t
    else t in
  set_scrollToHighlights false t.

(** "Adjust line offset." *)
Definition adjustLineOffset (height : Z) (t : TextView) : TextView :=
  let t := if len (index t) <? lineOffset t + height
           then set_trackEnd true t else t in
  let t := if trackEnd t
           then set_lineOffset (len (index t) - height) t else t in
  if lineOffset t <? 0 then set_lineOffset 0 t else t.

(** "Adjust column offset." *)
Definition adjustColumnOffset (width : Z) (t : TextView) : TextView :=
  if align t =? AlignLeft then
    let t := if longestLine t <? columnOffset t + width
             then set_columnOffset (longestLine t - width) t else t in
    if columnOffset t <? 0 then set_columnOffset 0 t else t
  else if align t =? AlignRight then
    let t := if columnOffset t - width <? - longestLine t
             then set_columnOffset (width - longestLine t) t else t in
    if 0 <? columnOffset t then set_columnOffset 0 t else t
  else (* AlignCenter. *)
    let half := Z.quot (longestLine t - width) 2 in
    if 0 <? half then
      let t := if half <? columnOffset t then set_columnOffset half t else t in
      if columnOffset t <? - half then set_columnOffset (- half) t else t
    else set_columnOffset 0 t.

(** "Draw the buffer.": the text of every visible index entry is sliced
    out of its buffer line.  The cells go to the screen, which is not
    part of the text view; what remains is that the slices are in
    range. *)
Definition drawBuffer (height : Z) (t : TextView) : outcome unit :=
  rows <- mapM (fun e : textViewIndex =>
                  bl <- at_ (buffer t) (Line e) ;;
                  slice bl (Pos e) (NextPos e))
               (firstn (Z.to_nat height) (skipn (Z.to_nat (lineOffset t)) (index t))) ;;
  Returns tt.

(** "If this view is not scrollable, we'll purge the buffer of lines
    that have scrolled out of view." *)
Definition purge (t : TextView) : outcome TextView :=
  if negb (scrollable t) && (0 <? lineOffset t) then
    e <- at_ (index t) (lineOffset t) ;;
    b <- slice (buffer t) (Line e) (len (buffer t)) ;;
    Returns (set_index [] (set_buffer b t))
  else Returns t.

Definition Draw (width height : Z) (t : TextView) : outcome TextView :=
  t <- drawReindex width height t ;;
  match index t with
  | [] => Returns t   (* If we don't have an index, there's nothing to draw. *)
  | _ :: _ =>
    let t := moveToHighlights height t in
    let t := adjustLineOffset height t in
    let t := adjustColumnOffset width t in
    _ <- drawBuffer height t ;;
    purge t
  end.

(** *** Write: the stream ingest *)

(** The results of [Write] and whether the [changed] handler is called
    when it returns. *)
Record written := mkWritten {
  view : TextView;
  n : Z;
  err : option gostring;   (* nil is [None] *)
  notified : bool
}.

(** [bytes.Repeat] panics on a negative count. *)
Definition Repeat (b : gostring) (count : Z) : outcome gostring :=
  if count <? 0 then Panics
  else Returns (concat (repeat b (Z.to_nat count))).

(** [bytes.Replace(s, []byte{old}, new, -1)] for a one-byte [old]. *)
Definition Replace (s : gostring) (old : ascii) (new : gostring) : gostring :=
  flat_map (fun c => if Ascii.eqb c old then new else [c]) s.

Definition tab : ascii := ascii_of_nat 9.

(** The loop over the lines of the new text: the first one extends the
    last buffer line, the others are appended. *)
Fixpoint appendLines (index : nat) (lines : list gostring) (buf : list gostring)
  : list gostring :=
  match lines with
  | [] => buf
  | line :: rest =>
    let buf :=
      match index with
      | O =>
        match buf with
        | [] => [line]
        | _ :: _ => removelast buf ++ [last buf [] ++ line]
        end
      | S _ => buf ++ [line]
      end in
    appendLines (S index) rest buf
  end.

Definition Write (t : TextView) (p : gostring) : outcome written :=
  (* Notify at the end. *)
  let notify := changed t in
  (* Copy data over. *)
  let newBytes := recentBytes t ++ p in
  let t := set_recentBytes [] t in
  (* If we have a trailing invalid UTF-8 byte, we'll wait. *)
  if fst (DecodeLastRune p) =? RuneError then
    Returns (mkWritten (set_recentBytes newBytes t) (len p) None notify)
  else
    (* If we have a trailing open dynamic color, exclude it. *)
    let '(t, newBytes) :=
      if dynamicColors t then
        match regexp.FindIndex openColor newBytes with
        | Some (b, _) => (set_recentBytes (skipn b newBytes) t, firstn b newBytes)
        | None => (t, newBytes)
        end
      else (t, newBytes) in
    (* If we have a trailing open region, exclude it. *)
    let '(t, newBytes) :=
      if regions t then
        match regexp.FindIndex openRegion newBytes with
        | Some (b, _) => (set_recentBytes (skipn b newBytes) t, firstn b newBytes)
        | None => (t, newBytes)
        end
      else (t, newBytes) in
    (* Transform the new bytes into strings. *)
    spaces <- Repeat [" "%char] TabSize ;;
    let newBytes := Replace newBytes tab spaces in
    let t := set_buffer (appendLines 0 (regexp.Split newLine newBytes) (buffer t)) t in
    (* Reset the index. *)
    let t := set_index [] t in
    Returns (mkWritten t (len p) None notify).

(** *** GetRegionText: the region extractor *)

Record regionScan := mkRegionScan {
  currentTag : nat;
  currentRegion : nat;
  currentRegionID : gostring;
  out : gostring   (* the bytes.Buffer *)
}.

(** [cur < len(indices) && pos >= indices[cur][0] && pos < indices[cur][1]] *)
Definition inTag (indices : list (nat * nat)) (cur pos : nat) : option (nat * nat) :=
  match nth_error indices cur with
  | Some (b, e) => if (b <=? pos)%nat && (pos <? e)%nat then Some (b, e) else None
  | None => None
  end.

(** The loop [for pos, ch := range str] of [GetRegionText]; [inl] is
    the early return at the end of the requested region. *)
Fixpoint scanRegion (target : gostring) (cti ri : list (nat * nat))
         (rt : list (list gostring)) (rs : list (nat * rune * nat))
         (st : regionScan) : gostring + regionScan :=
  match rs with
  | [] => inr st
  | (pos, ch, _) :: rs' =>
    match inTag cti (currentTag st) pos with
    | Some (_, e) =>
      (* Skip any color tags. *)
      scanRegion target cti ri rt rs'
        (if (pos =? e - 1)%nat
         then mkRegionScan (S (currentTag st)) (currentRegion st)
                           (currentRegionID st) (out st)
         else st)
    | None =>
      match inTag ri (currentRegion st) pos with
      | Some (_, e) =>
        (* Skip any regions. *)
        if (pos =? e - 1)%nat then
          if gostring_eqb (currentRegionID st) target then
            (* This is the end of the requested region. We're done. *)
            inl (out st)
          else
            scanRegion target cti ri rt rs'
              (mkRegionScan (currentTag st) (S (currentRegion st))
                            (nth 1 (nth (currentRegion st) rt []) [])
                            (out st))
        else scanRegion target cti ri rt rs' st
      | None =>
        (* Add this rune. *)
        scanRegion target cti ri rt rs'
          (if gostring_eqb (currentRegionID st) target
           then mkRegionScan (currentTag st) (currentRegion st)
                             (currentRegionID st) (out st ++ EncodeRune ch)
           else st)
      end
    end
  end.

(** The loop [for _, str := range t.buffer]. *)
Fixpoint scanBuffer (t : TextView) (target : gostring) (lines : list gostring)
         (id : gostring) (acc : gostring) : gostring + (gostring * gostring) :=
  match lines with
  | [] => inr (id, acc)
  | s :: rest =>
    (* Find all color tags in this line. *)
    let cti := if dynamicColors t
               then regexp.FindAllStringIndex colorPattern s else [] in
    (* Find all regions in this line. *)
    let ri := if regions t
              then regexp.FindAllStringIndex regionPattern s else [] in
    let rt := if regions t
              then regexp.FindAllStringSubmatch regionPattern s else [] in
    (* Analyze this line. *)
    match scanRegion target cti ri rt (range s) (mkRegionScan 0 0 id acc) with
    | inl text => inl text
    | inr st =>
      (* Add newline. *)
      let acc := if gostring_eqb (currentRegionID st) target
                 then out st ++ EncodeRune 10 else out st in
      scanBuffer t target rest (currentRegionID st) acc
    end
  end.

Definition GetRegionText (t : TextView) (regionID : gostring) : gostring :=
  if negb (regions t) || gostring_eqb regionID [] then []
  else
    match scanBuffer t regionID (buffer t) [] [] with
    | inl text => text
    | inr (_, text) =>
      regexp.ReplaceAllString escapePattern text (str "[$1$2]")
    end.

End Engine.

(** ** Notions used to state the properties of the text view *)

(** [continuation c]: [c] is a UTF-8 continuation byte. *)
Definition continuation (c : ascii) : Prop := 128 <= byteZ c <= 191.

(** [runeClean s]: every rune decoded from [s] is encoded back to the
    bytes it was decoded from, so that [string([]rune(s)[i:j])] is a
    substring of [s].  This holds for well-formed UTF-8; an invalid byte
    decodes to [RuneError], which is encoded in three bytes. *)
Fixpoint runeCleanFrom (skip : nat) (s : gostring) : bool :=
  match s with
  | [] => true
  | _ :: s' =>
    match skip with
    | S k => runeCleanFrom k s'
    | O =>
      let '(r, n) := DecodeRune s in
      gostring_eqb (EncodeRune r) (firstn n s) && runeCleanFrom (Nat.pred n) s'
    end
  end.

Definition runeClean (s : gostring) : Prop := runeCleanFrom 0 s = true.

(** The number of bytes of the first [i] runes of [s]. *)
Definition bytesOf (i : nat) (s : gostring) : nat :=
  list_sum (firstn i (map (fun e => snd e) (range s))).

(** A boundary character of [boundaryPattern]. *)
Definition isBoundary (c : ascii) : bool := isPunct c || isSpace c.

(** "Can we split before the mandatory end?": the cut after the last
    boundary match of [u], the whole of [u] if there is none. *)
Definition boundaryCut (u : gostring) : nat :=
  match last_error (regexp.FindAllStringIndex boundaryPattern u) with
  | Some (_, e) => e
  | None => length u
  end.

Section Measures.

Variable RuneWidth : rune -> Z.

Definition sumWidth (rs : list rune) : Z :=
  fold_left (fun width r => width + RuneWidth r) rs 0.

(** The number of bytes kept by [Truncate s w []] on a clean string. *)
Definition keep (w : Z) (s : gostring) : nat :=
  if runewidth.StringWidth RuneWidth s <=? w then length s
  else bytesOf (runewidth.truncateLoop RuneWidth (runes s) w 0) s.

(** The whitespace right after the kept text. *)
Definition spaceRun (w : Z) (s : gostring) : nat :=
  length (takeWhile isSpace (skipn (keep w s) s)).

(** The length of the piece carved from a clean string. *)
Definition cutLen (ww : bool) (w : Z) (s : gostring) : nat :=
  if ww && (keep w s <? length s)%nat
  then boundaryCut (firstn (keep w s + spaceRun w s) s)
  else keep w s.



End Measures.

(** *** Reassembling the text from the index *)

Definition newline : ascii := ascii_of_nat 10.




(** Lines joined by line breaks. *)
Fixpoint joinLines (lines : list gostring) : gostring :=
  match lines with
  | [] => []
  | [l] => l
  | l :: rest => l ++ newline :: joinLines rest
  end.




(** *** Instances of the parameters *)

(** An instance of the width table: the library's values on ASCII
    (control characters 0, printable characters 1); every rune beyond
    ASCII is given width 1 here. *)
Definition asciiRuneWidth (r : rune) : Z :=
  if (r <? 32) || (r =? 127) then 0 else 1.

(** An instance of the color lookup: no color name is known. *)
Definition noColor (name : gostring) : Z := -1.

(** An instance of the expression for escaped tags: a color tag whose
    closing bracket is preceded by an opening bracket and any number of
    further opening brackets. *)
Definition colorEscape : regexp.Regexp :=
  regexp.MustCompile (fun s =>
    match s with
    | "["%char :: rest =>
      let name := takeWhile isLetter rest in
      match name, skipn (length name) rest with
      | _ :: _, "["%char :: rest' =>
        let more := takeWhile (fun c => Ascii.eqb c "[") rest' in
        match skipn (length more) rest' with
        | "]"%char :: _ => Some ((3 + length name + length more)%nat, [name; more])
        | _ => None
        end
      | _, _ => None
      end
    | _ => None
    end).

(** The two bytes of U+00E9. *)
Definition byte_C3 : ascii := ascii_of_nat 195.
Definition byte_A9 : ascii := ascii_of_nat 169.

Definition hello : gostring := str "hello wonderful world".

(** The region tag with the given identifier. *)
Definition tagOpen (id : gostring) : gostring :=
  "["%char :: quote :: id ++ [quote; "]"%char].

(** A view of one line with word wrap. *)
Definition helloView : TextView :=
  SetWordWrap true (set_buffer [hello] (NewTextView 0)).

(** A view of two lines, the second one a highlighted region, with a
    pending scroll to the highlight. *)
Definition regionView : TextView :=
  ScrollToHighlight
    (Highlight [str "a"]
       (set_buffer [str "x"; tagOpen (str "a") ++ str "y" ++ tagOpen []]
          (SetRegions true (NewTextView 0)))).

Definition returned (o : outcome TextView) (default : TextView) : TextView :=
  match o with
  | Returns t => t
  | _ => default
  end.

Definition helloIndexed : TextView :=
  Eval vm_compute in
    returned (drawReindex asciiRuneWidth noColor colorEscape 10 2 helloView) helloView.

Definition helloDrawn : TextView :=
  Eval vm_compute in
    returned (Draw asciiRuneWidth noColor colorEscape 10 2 helloView) helloView.

Definition regionIndexed : TextView :=
  Eval vm_compute in
    returned (drawReindex asciiRuneWidth noColor colorEscape 10 1 regionView) regionView.

Unset Implicit Arguments.

(** *** Notions used for the text of a region *)

(** A matcher never matches beyond the end of the text. *)
Definition bounded (re : regexp.Regexp) : Prop :=
  forall u n gs, regexp.matchAt re u = Some (n, gs) -> (n <= length u)%nat.

(** Successive matches: each ends before the next one starts. *)
Fixpoint ordered (l : list (nat * nat)) : Prop :=
  match l with
  | [] => True
  | (b, e) :: l' =>
    (b < e)%nat /\
    match l' with
    | [] => True
    | (b', _) :: _ => (e <= b')%nat
    end /\ ordered l'
  end.

(** The text [u] starts with a tag of [n] bytes: an opening bracket
    followed by ASCII bytes other than the opening bracket. *)
Definition tagAt (u : gostring) (n : nat) : Prop :=
  (2 <= n <= length u)%nat /\
  nth 0 u zero = "["%char /\
  forall i, (0 < i < n)%nat ->
    byteZ (nth i u zero) < 128 /\ nth i u zero <> "["%char.

(** The characters of a color tag between the brackets. *)
Definition isColorChar (c : ascii) : bool := isAlnum c || (byteZ c =? 35).

(** The text that follows starts with an ASCII byte, or is empty. *)
Definition asciiHead (v : gostring) : Prop :=
  match v with
  | [] => True
  | c :: _ => byteZ c < 128
  end.

(** The number of leading tags that end at or before [pos]. *)
Fixpoint cnt (l : list (nat * nat)) (pos : nat) : nat :=
  match l with
  | [] => 0
  | (_, e) :: l' => if (e <=? pos)%nat then S (cnt l' pos) else 0
  end.

(** The tags of [l] that are not passed at [p] and start in the text
    [w] at position [p] lie in [w] and are made of ASCII bytes. *)
Definition inside (l : list (nat * nat)) (p : nat) (w : gostring) : Prop :=
  forall b e, In (b, e) l -> (p < e)%nat -> (b < p + length w)%nat ->
    (e <= p + length w)%nat /\
    forall i, (b <= i)%nat -> (p <= i)%nat -> (i < e)%nat ->
              byteZ (nth (i - p) w zero) < 128.

(** No position lies in a tag of [c] and in a tag of [r]. *)
Definition apart (c r : list (nat * nat)) : Prop :=
  forall b e b' e' i, In (b, e) c -> In (b', e') r ->
    (b <= i < e)%nat -> (b' <= i < e')%nat -> False.

(** [startsWith o l]: the text [l] starts with [o]. *)
Fixpoint startsWith (o l : gostring) : bool :=
  match o, l with
  | [], _ => true
  | c :: o', d :: l' => Ascii.eqb c d && startsWith o' l'
  | _ :: _, [] => false
  end.

(** [occursIn o l]: the text [o] occurs in [l]. *)
Fixpoint occursIn (o l : gostring) : bool :=
  startsWith o l ||
  match l with
  | [] => false
  | _ :: l' => occursIn o l'
  end.

(** Text without an opening bracket: it holds no tag. *)
Definition noBracket (x : gostring) : bool :=
  forallb (fun c => negb (Ascii.eqb c "[")) x.

(** The bytes from [b] to [e] of [s] have the form of a tag. *)
Definition lineTag (s : gostring) (b e : nat) : Prop :=
  (b + 2 <= e <= length s)%nat /\
  nth b s zero = "["%char /\
  forall i, (b < i < e)%nat ->
    byteZ (nth i s zero) < 128 /\ nth i s zero <> "["%char.

(** The color tags of a line, as [GetRegionText] computes them. *)
Definition tagsC (dc : bool) (s : gostring) : list (nat * nat) :=
  if dc then regexp.FindAllStringIndex colorPattern s else [].

(** The bytes of a region tag after its bracket. *)
Definition tagRest (id : gostring) : gostring := quote :: id ++ [quote; "]"%char].

(** No tag of the line lies across position [k]. *)
Definition closedAt (dc : bool) (s : gostring) (k : nat) : Prop :=
  forall b e,
    In (b, e) (tagsC dc s) \/
    In (b, e) (regexp.FindAllStringIndex regionPattern s) ->
    (e <= k)%nat \/ (k <= b)%nat.

(** The lines [x], [xs] of a text, the last one followed by [tail]. *)
Fixpoint closeLines (x : gostring) (xs : list gostring) (tail : gostring)
  : list gostring :=
  match xs with
  | [] => [x ++ tail]
  | y :: ys => x :: closeLines y ys tail
  end.

(** The lines of the buffer that hold the text [x], [xs]: the first one
    after [front], the last one before [tail]. *)
Definition regionLines (front x : gostring) (xs : list gostring) (tail : gostring)
  : list gostring :=
  match closeLines x xs tail with
  | l :: ls => (front ++ l) :: ls
  | [] => []
  end.

(** A view with regions and dynamic colors: the region [a] starts in
    the second line and is closed in the third. *)
Definition regionTextView : TextView :=
  set_buffer
    [str "intro";
     str "see " ++ tagOpen (str "a") ++ str "text";
     str "more" ++ tagOpen [] ++ str " end";
     str "z"]
    (SetRegions true (SetDynamicColors true (NewTextView 0))).



Lemma Repeat_nonneg : forall b count, 0 <= count ->
  Repeat b count = Returns (concat (repeat b (Z.to_nat count))).
Proof.
  intros b count H. unfold Repeat.
  destruct (count <? 0) eqn:E; [apply Z.ltb_lt in E; lia | reflexivity].
Qed.


(** C9: for every input [p] and every state of the view, [Write]
    returns [len(p)] accepted bytes and a nil error (the package
    variable [TabSize] being a tab width, that is, not negative). *)
Theorem Write_accepts_all_input : forall (TabSize : Z) (t : TextView) (p : gostring),
  0 <= TabSize ->
  exists w, Write TabSize t p = Returns w /\ n w = len p /\ err w = None.
Proof.
  intros TabSize t p HT. unfold Write.
  destruct (fst (DecodeLastRune p) =? RuneError).
  - eexists; split; [reflexivity | split; reflexivity].
  - destruct (if dynamicColors (set_recentBytes [] t) then _ else _) as [t1 nb1].
    destruct (if regions t1 then _ else _) as [t2 nb2].
    rewrite (Repeat_nonneg _ _ HT). simpl.
    eexists; split; [reflexivity | split; reflexivity].
Qed.

Lemma Write_accepts_all_input_witness :
  exists w, Write 4 (NewTextView 0) (str "tab" ++ [tab]) = Returns w
            /\ n w = 4 /\ err w = None.
Proof.
  apply (@Write_accepts_all_input 4 (NewTextView 0) (str "tab" ++ [tab])).
  lia.
Defined.

(** C5, the behaviour of the code at the failing input: the character
    U+00E9 (bytes C3 A9) written in two calls.  The first call holds C3
    back; the second call decodes its own input A9 alone, finds no valid
    rune at its end and holds both bytes back: the buffer has not
    received the character after the second call. *)
Theorem Write_split_rune_held_back : forall (TabSize : Z) (t : TextView),
  exists w1 w2,
    Write TabSize t [byte_C3] = Returns w1 /\
    Write TabSize (view w1) [byte_A9] = Returns w2 /\
    buffer (view w1) = buffer t /\
    recentBytes (view w1) = recentBytes t ++ [byte_C3] /\
    buffer (view w2) = buffer t /\
    recentBytes (view w2) = recentBytes t ++ [byte_C3; byte_A9].
Proof.
  intros TabSize t. do 2 eexists.
  split; [reflexivity|]. split; [reflexivity|]. simpl.
  rewrite <- app_assoc. repeat split; reflexivity.
Qed.

(** C1: with width 10, wrap and word wrap on, dynamic colors and regions
    off, the line "hello wonderful world" is carved into "hello ",
    "wonderful " and "world", each at most 10 columns wide, and indexed
    as three entries whose end offset and width leave out the trailing
    space of the first two pieces.  The width table gives width 1 to
    the printable ASCII characters. *)
Theorem wrap_hello_wonderful_world :
  forall (RuneWidth : rune -> Z) (GetColor : gostring -> Z)
         (escapePattern : regexp.Regexp) (c : Z),
  (forall r, 32 <= r < 127 -> RuneWidth r = 1) ->
  let t := SetWordWrap true (set_buffer [hello] (NewTextView c)) in
  let pieces := [str "hello "; str "wonderful "; str "world"] in
  dynamicColors t = false /\ regions t = false /\
  wrap t = true /\ wordWrap t = true /\
  splitLines RuneWidth true true 10 hello = Returns pieces /\
  Forall (fun piece => StringWidth RuneWidth piece <= 10) pieces /\
  exists t',
    reindexBuffer RuneWidth GetColor escapePattern 10 t = Returns t' /\
    index t' = [mkIndex 0 0 5 5 c []; mkIndex 0 6 15 9 c []; mkIndex 0 16 21 5 c []].
Proof.
  intros RW GC esc c H.
  assert (E : RW = fun r => if (32 <=? r) && (r <? 127) then 1 else RW r).
  { apply functional_extensionality. intro r.
    destruct ((32 <=? r) && (r <? 127)) eqn:B; [|reflexivity].
    apply andb_true_iff in B. destruct B as [B1 B2].
    apply Z.leb_le in B1. apply Z.ltb_lt in B2. apply H. lia. }
  rewrite E. cbv zeta.
  do 4 (split; [reflexivity|]).
  split; [vm_compute; reflexivity|].
  split.
  - repeat (apply Forall_cons; [vm_compute; discriminate|]). apply Forall_nil.
  - eexists. split; vm_compute; reflexivity.
Qed.

Section Indexing.

Variable RuneWidth : rune -> Z.
Variable GetColor : gostring -> Z.
Variable escapePattern : regexp.Regexp.

Lemma bind_Returns : forall (A B : Type) (m : outcome A) (k : A -> outcome B) (b : B),
  bind m k = Returns b -> exists a, m = Returns a /\ k a = Returns b.
Proof.
  intros A B m k b H. destruct m; simpl in H; try discriminate.
  eexists; split; [reflexivity | exact H].
Qed.

Lemma wrapLoop_eq : forall fuel ww width s,
  wrapLoop RuneWidth fuel ww width s =
  match s with
  | [] => Returns []
  | _ :: _ =>
    let extract := carve RuneWidth ww width s in
    if (length s <? length extract)%nat then Panics
    else
      match extract, fuel with
      | [], _ => Diverges
      | _ :: _, O => Diverges
      | _ :: _, S fuel' =>
        rest <- wrapLoop RuneWidth fuel' ww width (skipn (length extract) s) ;;
        Returns (extract :: rest)
      end
  end.
Proof. intros fuel ww width s. destruct fuel; reflexivity. Qed.

Lemma wrapLoop_nonempty : forall fuel ww width s l,
  s <> [] -> wrapLoop RuneWidth fuel ww width s = Returns l -> l <> [].
Proof.
  intros fuel ww width s l Hs H. rewrite wrapLoop_eq in H.
  destruct s as [|c s]; [congruence|]. cbv zeta in H.
  destruct (length (c :: s) <? length (carve RuneWidth ww width (c :: s)))%nat;
    [discriminate|].
  destruct (carve RuneWidth ww width (c :: s)); [discriminate|].
  destruct fuel; [discriminate|].
  apply bind_Returns in H. destruct H as [rest [_ H]].
  inversion H. discriminate.
Qed.

Lemma splitLines_nonempty : forall w ww width s l,
  splitLines RuneWidth w ww width s = Returns l -> l <> [].
Proof.
  intros w ww width s l H. unfold splitLines in H.
  destruct (w && (0 <? len s)) eqn:E.
  - apply wrapLoop_nonempty in H; [exact H|].
    apply andb_true_iff in E. destruct E as [_ E]. apply Z.ltb_lt in E.
    destruct s; [unfold len in E; simpl in E; lia | discriminate].
  - inversion H. discriminate.
Qed.

Lemma indexPieces_length : forall tg hl i pieces idx c,
  length (fst (indexPieces RuneWidth GetColor tg hl i pieces idx c))
  = (length idx + length pieces)%nat.
Proof.
  intros tg hl i pieces. induction pieces as [|p ps IH]; intros idx c; simpl.
  - lia.
  - rewrite IH. rewrite length_app. simpl. lia.
Qed.

Lemma mapM_length : forall (A B : Type) (f : A -> outcome B) l l',
  mapM f l = Returns l' -> length l' = length l.
Proof.
  intros A B f l. induction l as [|x l IH]; intros l' H; simpl in H.
  - inversion H. reflexivity.
  - apply bind_Returns in H. destruct H as [y [_ H]].
    apply bind_Returns in H. destruct H as [ys [H1 H]].
    inversion H. simpl. f_equal. apply IH. exact H1.
Qed.

(** Every buffer line adds as many index entries as it has pieces. *)
Lemma indexLine_length : forall t width i s st st',
  indexLine RuneWidth GetColor escapePattern t width i s st = Returns st' ->
  exists pieces,
    splitLines RuneWidth (wrap t) (wordWrap t) width
      (snd (stripTags escapePattern (dynamicColors t) (regions t) s)) = Returns pieces /\
    length (ix_index st') = (length (ix_index st) + length pieces)%nat.
Proof.
  intros t width i s st st' H. unfold indexLine in H.
  destruct (stripTags escapePattern (dynamicColors t) (regions t) s) as [tg s'] eqn:Es.
  apply bind_Returns in H. destruct H as [pieces [Hp H]].
  exists pieces. split; [exact Hp|].
  pose proof (indexPieces_length tg (highlights t) i pieces (ix_index st)
     (mkCursor 0 0 0 0 (ix_color st) (ix_region st) (ix_from st) (ix_to st))) as L.
  destruct (indexPieces RuneWidth GetColor tg (highlights t) i pieces (ix_index st) _)
    as [idx c] eqn:Ei.
  simpl in L.
  apply bind_Returns in H. destruct H as [idx' [Hm H]].
  inversion H; subst; simpl.
  destruct (wrap t && wordWrap t).
  - apply mapM_length in Hm. lia.
  - inversion Hm; subst. exact L.
Qed.

Lemma indexLine_nonempty : forall t width i s st st',
  indexLine RuneWidth GetColor escapePattern t width i s st = Returns st' ->
  ix_index st' <> [].
Proof.
  intros t width i s st st' H.
  apply indexLine_length in H. destruct H as [pieces [Hp L]].
  apply splitLines_nonempty in Hp.
  destruct pieces; [congruence|].
  destruct (ix_index st'); [simpl in L; lia | discriminate].
Qed.

Lemma indexBuffer_keeps_entries : forall t width lines i st st',
  indexBuffer RuneWidth GetColor escapePattern t width i lines st = Returns st' ->
  ix_index st <> [] -> ix_index st' <> [].
Proof.
  intros t width lines. induction lines as [|s rest IH]; intros i st st' H Hne; simpl in H.
  - inversion H; subst. exact Hne.
  - apply bind_Returns in H. destruct H as [st1 [H1 H]].
    apply (IH _ _ _ H). eapply indexLine_nonempty; eassumption.
Qed.

(** An empty index after re-indexing carries no highlight range. *)
Lemma rebuildIndex_empty_no_highlight : forall width t t1,
  rebuildIndex RuneWidth GetColor escapePattern width t = Returns t1 ->
  index t1 = [] -> fromHighlight t1 = -1.
Proof.
  intros width t t1 H He. unfold rebuildIndex in H.
  destruct (width <? 1).
  - inversion H; subst. reflexivity.
  - apply bind_Returns in H. destruct H as [st [Hb H]].
    inversion H; subst; clear H. simpl in *.
    destruct (buffer t) as [|s rest] eqn:Eb.
    + simpl in Hb. inversion Hb; subst. reflexivity.
    + simpl in Hb. apply bind_Returns in Hb. destruct Hb as [st1 [H1 Hb]].
      apply indexLine_nonempty in H1.
      apply indexBuffer_keeps_entries in Hb; [congruence | exact H1].
Qed.

Lemma drawReindex_empty_no_highlight : forall width height t t1,
  drawReindex RuneWidth GetColor escapePattern width height t = Returns t1 ->
  index t1 = [] -> fromHighlight t1 = -1.
Proof.
  intros width height t t1 H He. unfold drawReindex, reindexBuffer in H.
  match type of H with
  | match index ?u with _ => _ end = _ => destruct (index u) eqn:Ei
  end.
  - eapply rebuildIndex_empty_no_highlight; eassumption.
  - inversion H; subst. congruence.
Qed.

End Indexing.

Section Viewport.

Variable RuneWidth : rune -> Z.
Variable GetColor : gostring -> Z.
Variable escapePattern : regexp.Regexp.

(** The clamping of the line offset, by itself. *)
Lemma adjustLineOffset_spec : forall height t,
  let t' := adjustLineOffset height t in
  index t' = index t /\
  (len (index t) < lineOffset t + height -> trackEnd t' = true) /\
  (trackEnd t' = true -> lineOffset t' = Z.max (len (index t) - height) 0) /\
  (trackEnd t' = false -> trackEnd t = false /\ lineOffset t' = Z.max (lineOffset t) 0) /\
  0 <= lineOffset t'.
Proof.
  intros height t. unfold adjustLineOffset.
  destruct t as [buf rb idx al fh th hl lw ll lo te co ps sc wr ww tc dc rg sh ch]; simpl.
  destruct (len idx <? lo + height) eqn:E1; simpl;
    [apply Z.ltb_lt in E1 | apply Z.ltb_ge in E1].
  - destruct (len idx - height <? 0) eqn:E2; simpl;
      [apply Z.ltb_lt in E2 | apply Z.ltb_ge in E2];
      repeat split; intros; try discriminate; try lia.
  - destruct te; simpl.
    + destruct (len idx - height <? 0) eqn:E2; simpl;
        [apply Z.ltb_lt in E2 | apply Z.ltb_ge in E2];
        repeat split; intros; try discriminate; try lia.
    + destruct (lo <? 0) eqn:E2; simpl;
        [apply Z.ltb_lt in E2 | apply Z.ltb_ge in E2];
        repeat split; intros; try discriminate; try lia.
Qed.

Lemma moveToHighlights_frame : forall height t,
  index (moveToHighlights height t) = index t /\
  trackEnd (moveToHighlights height t) = trackEnd t /\
  scrollToHighlights (moveToHighlights height t) = false.
Proof.
  intros height t. unfold moveToHighlights.
  destruct (regions t && scrollToHighlights t && (0 <=? fromHighlight t));
    [destruct (toHighlight t - fromHighlight t + 1 <? height)|];
    destruct t; simpl; repeat split.
Qed.

Lemma adjustColumnOffset_frame : forall width t,
  let t' := adjustColumnOffset width t in
  index t' = index t /\ lineOffset t' = lineOffset t /\
  trackEnd t' = trackEnd t /\ scrollToHighlights t' = scrollToHighlights t.
Proof.
  intros width t. unfold adjustColumnOffset.
  destruct t; simpl.
  repeat match goal with
         | |- context [if ?c then _ else _] => destruct c; simpl
         end; repeat split.
Qed.

Lemma purge_frame : forall t t',
  purge t = Returns t' ->
  lineOffset t' = lineOffset t /\ trackEnd t' = trackEnd t /\
  scrollToHighlights t' = scrollToHighlights t.
Proof.
  intros t t' H. unfold purge in H.
  destruct (negb (scrollable t) && (0 <? lineOffset t)).
  - apply bind_Returns in H. destruct H as [e [_ H]].
    apply bind_Returns in H. destruct H as [b [_ H]].
    inversion H; subst. destruct t; simpl. repeat split.
  - inversion H; subst. repeat split.
Qed.

(** When the index is not empty, [Draw] goes through all its steps. *)
Lemma Draw_steps : forall width height t t1,
  drawReindex RuneWidth GetColor escapePattern width height t = Returns t1 ->
  index t1 <> [] ->
  Draw RuneWidth GetColor escapePattern width height t =
  (let t3 := adjustColumnOffset width
               (adjustLineOffset height (moveToHighlights height t1)) in
   _ <- drawBuffer height t3 ;; purge t3).
Proof.
  intros width height t t1 H Hne. unfold Draw. rewrite H. simpl.
  destruct (index t1); [congruence | reflexivity].
Qed.

Lemma Draw_empty_index : forall width height t t1,
  drawReindex RuneWidth GetColor escapePattern width height t = Returns t1 ->
  index t1 = [] ->
  Draw RuneWidth GetColor escapePattern width height t = Returns t1.
Proof.
  intros width height t t1 H He. unfold Draw. rewrite H. simpl.
  rewrite He. reflexivity.
Qed.

(** C6 (amended): on every draw whose index is not empty once it is
    current, the line offset is clamped: an offset past the end of the
    index forces [trackEnd]; with [trackEnd] the offset is
    [len(index) - height], floored at 0; and the offset is never
    negative after the draw. *)
Theorem Draw_clamps_lineOffset : forall width height t t1 t',
  drawReindex RuneWidth GetColor escapePattern width height t = Returns t1 ->
  index t1 <> [] ->
  Draw RuneWidth GetColor escapePattern width height t = Returns t' ->
  (len (index t1) < lineOffset (moveToHighlights height t1) + height ->
   trackEnd t' = true) /\
  (trackEnd t' = true -> lineOffset t' = Z.max (len (index t1) - height) 0) /\
  0 <= lineOffset t'.
Proof.
  intros width height t t1 t' H1 Hne HD.
  rewrite (Draw_steps _ _ _ _ H1 Hne) in HD. cbv zeta in HD.
  apply bind_Returns in HD. destruct HD as [u [_ HD]].
  apply purge_frame in HD. destruct HD as [Lo [Te _]].
  destruct (adjustColumnOffset_frame width
              (adjustLineOffset height (moveToHighlights height t1)))
    as [_ [Lo2 [Te2 _]]].
  destruct (adjustLineOffset_spec height (moveToHighlights height t1))
    as [_ [A [B [_ C]]]].
  destruct (moveToHighlights_frame height t1) as [Ix _].
  rewrite Ix in A, B.
  rewrite Lo, Te, Lo2, Te2. auto.
Qed.

(** C7 (amended): a draw with the scroll-to-highlight flag pending,
    regions enabled and a highlight range present reaches the highlight
    step; there the line offset is set to
    [(fromHighlight + toHighlight - height) / 2] when the range has
    strictly fewer lines than the viewport, and to [fromHighlight]
    otherwise; the flag is cleared.  For the range 3-5 and height 10
    this is [(3 + 5 - 10) / 2]. *)
Theorem Draw_moves_to_highlights : forall width height t t1,
  drawReindex RuneWidth GetColor escapePattern width height t = Returns t1 ->
  regions t1 = true ->
  scrollToHighlights t1 = true ->
  0 <= fromHighlight t1 ->
  let t2 := moveToHighlights height t1 in
  Draw RuneWidth GetColor escapePattern width height t =
    (let t3 := adjustColumnOffset width (adjustLineOffset height t2) in
     _ <- drawBuffer height t3 ;; purge t3) /\
  (toHighlight t1 - fromHighlight t1 + 1 < height ->
   lineOffset t2 = Z.quot (fromHighlight t1 + toHighlight t1 - height) 2) /\
  (height <= toHighlight t1 - fromHighlight t1 + 1 ->
   lineOffset t2 = fromHighlight t1) /\
  (fromHighlight t1 = 3 -> toHighlight t1 = 5 -> height = 10 ->
   lineOffset t2 = Z.quot (3 + 5 - 10) 2) /\
  scrollToHighlights t2 = false /\
  (forall t', Draw RuneWidth GetColor escapePattern width height t = Returns t' -> scrollToHighlights t' = false).
Proof.
  intros width height t t1 H1 Hr Hs Hf t2.
  assert (Hne : index t1 <> []).
  { intro He. pose proof (drawReindex_empty_no_highlight _ _ _ _ _ _ _ H1 He). lia. }
  pose proof (Draw_steps _ _ _ _ H1 Hne) as HD.
  assert (Hlt : toHighlight t1 - fromHighlight t1 + 1 < height ->
                lineOffset t2 = Z.quot (fromHighlight t1 + toHighlight t1 - height) 2).
  { intro Hc. subst t2. unfold moveToHighlights. rewrite Hr, Hs. simpl.
    destruct (0 <=? fromHighlight t1) eqn:E; [|apply Z.leb_gt in E; lia].
    destruct (toHighlight t1 - fromHighlight t1 + 1 <? height) eqn:E2;
      [|apply Z.ltb_ge in E2; lia].
    destruct t1; reflexivity. }
  split; [exact HD|]. split; [exact Hlt|]. split; [|split; [|split]].
  - intro Hc. subst t2. unfold moveToHighlights. rewrite Hr, Hs. simpl.
    destruct (0 <=? fromHighlight t1) eqn:E; [|apply Z.leb_gt in E; lia].
    destruct (toHighlight t1 - fromHighlight t1 + 1 <? height) eqn:E2;
      [apply Z.ltb_lt in E2; lia|].
    destruct t1; reflexivity.
  - intros E1 E2 E3. rewrite Hlt by lia. rewrite E1, E2, E3. reflexivity.
  - apply moveToHighlights_frame.
  - intros t' Ht'. rewrite HD in Ht'. cbv zeta in Ht'.
    apply bind_Returns in Ht'. destruct Ht' as [u [_ Ht']].
    apply purge_frame in Ht'. destruct Ht' as [_ [_ Sc]].
    rewrite Sc.
    destruct (adjustColumnOffset_frame width
                (adjustLineOffset height (moveToHighlights height t1)))
      as [_ [_ [_ Sc2]]].
    rewrite Sc2. unfold adjustLineOffset.
    repeat match goal with
           | |- context [if ?c then _ else _] => destruct c
           end;
      destruct (moveToHighlights_frame height t1) as [_ [_ F]];
      destruct (moveToHighlights height t1); simpl in *; exact F.
Qed.







End Viewport.

(** ** Facts about the UTF-8 decoder *)

Lemma byteZ_range : forall c, 0 <= byteZ c < 256.
Proof.
  intro c. unfold byteZ.
  pose proof (N_ascii_bounded c) as H. lia.
Qed.

Lemma RuneStart_continuation : forall c, continuation c -> RuneStart c = false.
Proof.
  intros c H. unfold continuation in H.
  destruct c as [[] [] [] [] [] [] [] []]; vm_compute in H |- *;
    try reflexivity; exfalso; destruct H as [H1 H2];
    try (apply H1; reflexivity); try (apply H2; reflexivity).
Qed.

Lemma RuneStart_lead : forall c, 192 <= byteZ c -> RuneStart c = true.
Proof.
  intros c H.
  destruct c as [[] [] [] [] [] [] [] []]; vm_compute in H |- *;
    try reflexivity; exfalso; apply H; reflexivity.
Qed.

Lemma first_cases : forall b, 0 <= b < 256 ->
  (b < 128 /\ first b = 240) \/
  (128 <= b /\ first b = 241) \/
  (194 <= b /\
   (first b = 2 \/ first b = 19 \/ first b = 3 \/ first b = 35 \/
    first b = 52 \/ first b = 4 \/ first b = 68)).
Proof.
  intros b Hb. unfold first, as_, xx, s1, s2, s3, s4, s5, s6, s7.
  repeat match goal with
         | |- context [if ?x <? ?y then _ else _] =>
           destruct (Z.ltb_spec x y)
         | |- context [if ?x =? ?y then _ else _] =>
           destruct (Z.eqb_spec x y)
         end;
    try (left; split; [lia | reflexivity]);
    try (right; left; split; [lia | reflexivity]);
    right; right; (split; [lia|]); tauto.
Qed.

Ltac ev H t := let v := eval vm_compute in t in change t with v in H.

Ltac ev_first H X :=
  ev H (as_ <=? X); try ev H (Z.odd X); try ev H (Z.land X 7);
  try ev H (acceptRanges (Z.shiftr X 4));
  try ev H (Z.land X 7 <=? 2); try ev H (Z.land X 7 <=? 3);
  cbv beta iota in H; unfold fst, snd, locb, hicb in H.

Ltac orb_false E :=
  apply orb_false_iff in E;
  let E1 := fresh "E" in let E2 := fresh "E" in
  destruct E as [E1 E2]; apply Z.ltb_ge in E1; apply Z.ltb_ge in E2.

Ltac decode_leaf H :=
  repeat match type of H with
         | match ?p with [] => _ | _ :: _ => _ end = _ => destruct p
         | (if ?c then _ else _) = _ =>
           let E := fresh "E" in destruct c eqn:E; [|try orb_false E]
         end;
  inversion H; subst; try congruence.

(** The shape of a successful decoding: one ASCII byte, or a leading
    byte followed by one to three continuation bytes. *)
Lemma DecodeRune_shape : forall p r k,
  DecodeRune p = (r, k) -> r <> RuneError ->
  match p with
  | [] => False
  | c0 :: p1 =>
    (k = 1%nat /\ byteZ c0 < 128 /\ r = byteZ c0) \/
    (194 <= byteZ c0 /\
     match p1 with
     | c1 :: p2 =>
       continuation c1 /\
       (k = 2%nat \/
        match p2 with
        | c2 :: p3 =>
          continuation c2 /\
          (k = 3%nat \/
           match p3 with
           | c3 :: _ => continuation c3 /\ k = 4%nat
           | [] => False
           end)
        | [] => False
        end)
     | [] => False
     end)
  end.
Proof.
  intros p r k H Hr. unfold continuation.
  destruct p as [|c0 p1]; [inversion H; congruence|].
  pose proof (byteZ_range c0) as R0.
  unfold DecodeRune in H. cbv zeta in H.
  remember (byteZ c0) as p0 eqn:Ep0.
  destruct (first_cases _ R0) as [[L F] | [[L F] | [L F]]].
  - rewrite F in H. ev_first H 240. inversion H; subst. left. auto.
  - rewrite F in H. ev_first H 241. inversion H; subst. congruence.
  - right. split; [exact L|].
    destruct F as [F | [F | [F | [F | [F | [F | F]]]]]]; rewrite F in H;
      [ ev_first H 2 | ev_first H 19 | ev_first H 3 | ev_first H 35
      | ev_first H 52 | ev_first H 4 | ev_first H 68 ];
      decode_leaf H; repeat split; auto; try lia.
Qed.

Lemma len_app : forall (A : Type) (a b : list A), len (a ++ b) = len a + len b.
Proof. intros. unfold len. rewrite length_app. lia. Qed.

Lemma len_nonneg : forall (A : Type) (a : list A), 0 <= len a.
Proof. intros. unfold len. lia. Qed.

Lemma nth_app_Z : forall (q enc : gostring) i,
  0 <= i ->
  nth (Z.to_nat (len q + i)) (q ++ enc) zero = nth (Z.to_nat i) enc zero.
Proof.
  intros q enc i Hi. unfold len.
  replace (Z.to_nat (Z.of_nat (length q) + i)) with (length q + Z.to_nat i)%nat by lia.
  apply app_nth2_plus.
Qed.

Lemma skipn_app_Z : forall (q enc : gostring),
  skipn (Z.to_nat (len q)) (q ++ enc) = enc.
Proof.
  intros q enc. unfold len. rewrite Nat2Z.id.
  rewrite skipn_app, Nat.sub_diag, skipn_all. reflexivity.
Qed.

(** A valid encoding at the end of a text is what [DecodeLastRune]
    finds, whatever comes before it. *)
Lemma DecodeLastRune_app : forall q enc r,
  DecodeRune enc = (r, length enc) -> r <> RuneError ->
  DecodeLastRune (q ++ enc) = (r, length enc).
Proof.
  intros q enc r H Hr.
  pose proof (DecodeRune_shape _ _ _ H Hr) as S.
  pose proof (len_nonneg _ q) as Lq.
  destruct enc as [|c0 p1]; [contradiction|].
  destruct S as [[K [B R]] | [L S]].
  - (* one ASCII byte *)
    destruct p1; [|discriminate]. subst r.
    unfold DecodeLastRune. rewrite len_app.
    change (len [c0]) with 1.
    destruct (Z.eqb_spec (len q + 1) 0); [lia|].
    replace (len q + 1 - 1) with (len q + 0) by lia.
    rewrite nth_app_Z by lia. simpl nth.
    unfold RuneSelf.
    destruct (Z.ltb_spec (byteZ c0) 128); [reflexivity | lia].
  - destruct p1 as [|c1 p2]; [contradiction|]. destruct S as [C1 S].
    pose proof (RuneStart_lead c0 ltac:(lia)) as S0.
    pose proof (RuneStart_continuation _ C1) as S1.
    unfold continuation in C1.
    destruct S as [K | S].
    + (* two bytes *)
      destruct p2; [|discriminate].
      unfold DecodeLastRune. rewrite len_app.
      change (len [c0; c1]) with 2.
      destruct (Z.eqb_spec (len q + 2) 0); [lia|].
      replace (len q + 2 - 1) with (len q + 1) by lia.
      rewrite nth_app_Z by lia. simpl nth.
      unfold RuneSelf, UTFMax.
      destruct (Z.ltb_spec (byteZ c1) 128); [lia|].
      replace (len q + 1 - 1) with (len q + 0) by lia.
      simpl scanBack.
      destruct (Z.ltb_spec (len q + 0) (Z.max (len q + 2 - 4) 0)); [lia|].
      rewrite nth_app_Z by lia. simpl nth. rewrite S0.
      rewrite Z.max_l by lia. rewrite Z.add_0_r, skipn_app_Z, H.
      simpl length.
      destruct (Z.eqb_spec (len q + Z.of_nat 2) (len q + 2)); [reflexivity | lia].
    + destruct p2 as [|c2 p3]; [contradiction|]. destruct S as [C2 S].
      pose proof (RuneStart_continuation _ C2) as S2.
      unfold continuation in C2.
      destruct S as [K | S].
      * (* three bytes *)
        destruct p3; [|discriminate].
        unfold DecodeLastRune. rewrite len_app.
        change (len [c0; c1; c2]) with 3.
        destruct (Z.eqb_spec (len q + 3) 0); [lia|].
        replace (len q + 3 - 1) with (len q + 2) by lia.
        rewrite nth_app_Z by lia. simpl nth.
        unfold RuneSelf, UTFMax.
        destruct (Z.ltb_spec (byteZ c2) 128); [lia|].
        simpl scanBack.
        replace (len q + 2 - 1) with (len q + 1) by lia.
        destruct (Z.ltb_spec (len q + 1) (Z.max (len q + 3 - 4) 0)); [lia|].
        rewrite nth_app_Z by lia. simpl nth. rewrite S1.
        replace (len q + 1 - 1) with (len q + 0) by lia.
        destruct (Z.ltb_spec (len q + 0) (Z.max (len q + 3 - 4) 0)); [lia|].
        rewrite nth_app_Z by lia. simpl nth. rewrite S0.
        rewrite Z.max_l by lia. rewrite Z.add_0_r, skipn_app_Z, H.
        simpl length.
        destruct (Z.eqb_spec (len q + Z.of_nat 3) (len q + 3)); [reflexivity | lia].
      * (* four bytes *)
        destruct p3 as [|c3 p4]; [contradiction|]. destruct S as [C3 K].
        pose proof (RuneStart_continuation _ C3) as S3.
        unfold continuation in C3.
        destruct p4; [|discriminate].
        unfold DecodeLastRune. rewrite len_app.
        change (len [c0; c1; c2; c3]) with 4.
        destruct (Z.eqb_spec (len q + 4) 0); [lia|].
        replace (len q + 4 - 1) with (len q + 3) by lia.
        rewrite nth_app_Z by lia. simpl nth.
        unfold RuneSelf, UTFMax.
        destruct (Z.ltb_spec (byteZ c3) 128); [lia|].
        simpl scanBack.
        replace (len q + 3 - 1) with (len q + 2) by lia.
        destruct (Z.ltb_spec (len q + 2) (Z.max (len q + 4 - 4) 0)); [lia|].
        rewrite nth_app_Z by lia. simpl nth. rewrite S2.
        replace (len q + 2 - 1) with (len q + 1) by lia.
        destruct (Z.ltb_spec (len q + 1) (Z.max (len q + 4 - 4) 0)); [lia|].
        rewrite nth_app_Z by lia. simpl nth. rewrite S1.
        replace (len q + 1 - 1) with (len q + 0) by lia.
        destruct (Z.ltb_spec (len q + 0) (Z.max (len q + 4 - 4) 0)); [lia|].
        rewrite nth_app_Z by lia. simpl nth. rewrite S0.
        rewrite Z.max_l by lia. rewrite Z.add_0_r, skipn_app_Z, H.
        simpl length.
        destruct (Z.eqb_spec (len q + Z.of_nat 4) (len q + 4)); [reflexivity | lia].
Qed.

Lemma DecodeRune_ascii : forall c, byteZ c < 128 -> DecodeRune [c] = (byteZ c, 1%nat).
Proof.
  intros c H. pose proof (byteZ_range c) as R.
  unfold DecodeRune. cbv zeta.
  destruct (first_cases _ R) as [[L F] | [[L F] | [L F]]]; try lia.
  rewrite F. reflexivity.
Qed.

Lemma split_last_byte : forall (p : gostring),
  p <> [] ->
  p = firstn (length p - 1) p ++ [nth (length p - 1) p zero].
Proof.
  intros p Hp.
  destruct (exists_last Hp) as [q [c E]]. subst p.
  rewrite length_app. simpl length.
  replace (length q + 1 - 1)%nat with (length q) by lia.
  rewrite firstn_app, Nat.sub_diag, firstn_all. simpl firstn. rewrite app_nil_r.
  rewrite app_nth2, Nat.sub_diag by lia. reflexivity.
Qed.

(** A rune found by [DecodeLastRune] is a valid encoding at the end of
    the text. *)
Lemma DecodeLastRune_shape : forall p,
  fst (DecodeLastRune p) <> RuneError ->
  exists q enc,
    p = q ++ enc /\
    DecodeRune enc = (fst (DecodeLastRune p), length enc).
Proof.
  intros p H. unfold DecodeLastRune in *.
  destruct (Z.eqb_spec (len p) 0) as [E0 | E0]; [simpl in H; congruence|].
  assert (Hp : p <> []) by (intro; subst; apply E0; reflexivity).
  assert (Hl : Z.to_nat (len p - 1) = (length p - 1)%nat) by (unfold len; lia).
  rewrite Hl in *.
  destruct (byteZ (nth (length p - 1) p zero) <? RuneSelf) eqn:EA.
  - apply Z.ltb_lt in EA. unfold RuneSelf in EA.
    exists (firstn (length p - 1) p), [nth (length p - 1) p zero].
    split; [apply split_last_byte; exact Hp|].
    simpl. apply DecodeRune_ascii. exact EA.
  - remember (Z.max (scanBack 4 p (len p - 1 - 1) (Z.max (len p - UTFMax) 0)) 0)
      as start eqn:Es.
    assert (Hs : 0 <= start) by lia.
    destruct (DecodeRune (skipn (Z.to_nat start) p)) as [r size] eqn:Ed.
    destruct (Z.eqb_spec (start + Z.of_nat size) (len p)) as [Ee | Ee];
      [|simpl in H; congruence].
    simpl in H |- *.
    exists (firstn (Z.to_nat start) p), (skipn (Z.to_nat start) p).
    split; [symmetry; apply firstn_skipn|].
    rewrite Ed. f_equal. rewrite length_skipn. unfold len in Ee. lia.
Qed.

(** Bytes in front of a text do not change a valid last rune. *)
Lemma DecodeLastRune_prefix : forall recent p,
  fst (DecodeLastRune p) <> RuneError ->
  DecodeLastRune (recent ++ p) = DecodeLastRune p.
Proof.
  intros recent p H.
  destruct (DecodeLastRune_shape p H) as [q [enc [Ep Hd]]].
  assert (E1 : DecodeLastRune p = (fst (DecodeLastRune p), length enc)).
  { rewrite Ep at 1. apply DecodeLastRune_app; assumption. }
  rewrite E1. rewrite Ep at 1. rewrite app_assoc.
  apply DecodeLastRune_app; assumption.
Qed.

(** If the pending bytes together end in an invalid rune, so do the new
    bytes alone: this is what [Write] tests. *)
Lemma DecodeLastRune_pending : forall recent p,
  fst (DecodeLastRune (recent ++ p)) = RuneError ->
  fst (DecodeLastRune p) = RuneError.
Proof.
  intros recent p H.
  destruct (Z.eq_dec (fst (DecodeLastRune p)) RuneError) as [E | E]; [exact E|].
  rewrite (DecodeLastRune_prefix recent p E) in H. contradiction.
Qed.

(** C10: a write whose pending bytes (held over and new) end in an
    invalid or incomplete rune only stores them all as held-over bytes;
    the buffer, the index and every other field stay as they are. *)
Theorem Write_incomplete_rune_frame : forall (TabSize : Z) (t : TextView) (p : gostring),
  fst (DecodeLastRune (recentBytes t ++ p)) = RuneError ->
  Write TabSize t p =
  Returns (mkWritten (set_recentBytes (recentBytes t ++ p) t) (len p) None (changed t))
  /\ buffer (set_recentBytes (recentBytes t ++ p) t) = buffer t
  /\ index (set_recentBytes (recentBytes t ++ p) t) = index t.
Proof.
  intros TabSize t p H. apply DecodeLastRune_pending in H.
  unfold Write. rewrite H, Z.eqb_refl.
  destruct t; simpl. repeat split.
Qed.

Lemma Write_incomplete_rune_frame_witness :
  let t := set_recentBytes [ascii_of_nat 228] (set_buffer [str "ab"] (NewTextView 0)) in
  let p := [ascii_of_nat 184] in
  Write 4 t p =
  Returns (mkWritten (set_recentBytes (recentBytes t ++ p) t) (len p) None (changed t))
  /\ buffer (set_recentBytes (recentBytes t ++ p) t) = buffer t
  /\ index (set_recentBytes (recentBytes t ++ p) t) = index t.
Proof.
  apply (Write_incomplete_rune_frame 4
           (set_recentBytes [ascii_of_nat 228] (set_buffer [str "ab"] (NewTextView 0)))
           [ascii_of_nat 184]).
  vm_compute. reflexivity.
Defined.

(** ** Runes of a string *)

(** The general shape of a decoding step: one byte (ASCII or invalid),
    or a leading byte with one to three continuation bytes. *)
Lemma DecodeRune_bytes : forall c0 p1 r k,
  DecodeRune (c0 :: p1) = (r, k) ->
  (k = 1%nat /\ (r = RuneError \/ (byteZ c0 < 128 /\ r = byteZ c0))) \/
  (194 <= byteZ c0 /\
   match p1 with
   | c1 :: p2 =>
     continuation c1 /\
     (k = 2%nat \/
      match p2 with
      | c2 :: p3 =>
        continuation c2 /\
        (k = 3%nat \/
         match p3 with
         | c3 :: _ => continuation c3 /\ k = 4%nat
         | [] => False
         end)
      | [] => False
      end)
   | [] => False
   end).
Proof.
  intros c0 p1 r k H. unfold continuation.
  pose proof (byteZ_range c0) as R0.
  unfold DecodeRune in H. cbv zeta in H.
  remember (byteZ c0) as p0 eqn:Ep0.
  destruct (first_cases _ R0) as [[L F] | [[L F] | [L F]]].
  - rewrite F in H. ev_first H 240. inversion H; subst. left. auto.
  - rewrite F in H. ev_first H 241. inversion H; subst. left. auto.
  - destruct F as [F | [F | [F | [F | [F | [F | F]]]]]]; rewrite F in H;
      [ ev_first H 2 | ev_first H 19 | ev_first H 3 | ev_first H 35
      | ev_first H 52 | ev_first H 4 | ev_first H 68 ];
      repeat match type of H with
             | match ?p with [] => _ | _ :: _ => _ end = _ => destruct p
             | (if ?c then _ else _) = _ =>
               let E := fresh "E" in destruct c eqn:E; [|try orb_false E]
             end;
      inversion H; subst; auto; right; repeat split; auto; try lia.
Qed.

Lemma DecodeRune_size : forall c0 p1 r k,
  DecodeRune (c0 :: p1) = (r, k) -> (1 <= k <= length (c0 :: p1))%nat.
Proof.
  intros c0 p1 r k H. apply DecodeRune_bytes in H.
  destruct H as [[K _] | [_ H]]; [simpl; lia|].
  destruct p1 as [|c1 p2]; [contradiction|]. destruct H as [_ [K | H]]; [simpl; lia|].
  destruct p2 as [|c2 p3]; [contradiction|]. destruct H as [_ [K | H]]; [simpl; lia|].
  destruct p3 as [|c3 p4]; [contradiction|]. destruct H as [_ K]. simpl; lia.
Qed.

(** An ASCII byte is decoded as itself. *)
Lemma DecodeRune_ascii_head : forall c p1,
  byteZ c < 128 -> DecodeRune (c :: p1) = (byteZ c, 1%nat).
Proof.
  intros c p1 H. pose proof (byteZ_range c) as R.
  unfold DecodeRune. cbv zeta.
  destruct (first_cases _ R) as [[L F] | [[L F] | [L F]]]; try lia.
  rewrite F. reflexivity.
Qed.

Lemma rangeFrom_skip : forall s k pos,
  rangeFrom k pos s = rangeFrom 0 (pos + k) (skipn k s).
Proof.
  induction s as [|c s IH]; intros k pos.
  - destruct k; reflexivity.
  - destruct k as [|k].
    + rewrite Nat.add_0_r. reflexivity.
    + simpl rangeFrom at 1. rewrite IH. simpl skipn. f_equal. lia.
Qed.

Lemma rangeFrom_head : forall c s pos r n,
  DecodeRune (c :: s) = (r, n) ->
  rangeFrom 0 pos (c :: s) = (pos, r, n) :: rangeFrom (Nat.pred n) (S pos) s.
Proof.
  intros c s pos r n H. change (rangeFrom 0 pos (c :: s)) with
    (let '(r, n) := DecodeRune (c :: s) in
     (pos, r, n) :: rangeFrom (Nat.pred n) (S pos) s).
  rewrite H. reflexivity.
Qed.

Lemma range_cons : forall c s r n,
  DecodeRune (c :: s) = (r, n) ->
  rangeFrom 0 0 (c :: s) = (0%nat, r, n) :: rangeFrom 0 n (skipn n (c :: s)).
Proof.
  intros c s r n H. rewrite (rangeFrom_head _ _ _ _ _ H).
  pose proof (DecodeRune_size _ _ _ _ H) as [L _].
  rewrite rangeFrom_skip. destruct n as [|n]; [lia|]. reflexivity.
Qed.

Lemma rangeFrom_shift : forall m s pos,
  (length s <= m)%nat ->
  rangeFrom 0 pos s
  = map (fun e => ((pos + fst (fst e))%nat, snd (fst e), snd e)) (rangeFrom 0 0 s).
Proof.
  induction m as [|m IH]; intros s pos Hm.
  - destruct s; [reflexivity | simpl in Hm; lia].
  - destruct s as [|c s]; [reflexivity|].
    destruct (DecodeRune (c :: s)) as [r n] eqn:Ed.
    pose proof (DecodeRune_size _ _ _ _ Ed) as [L1 L2].
    rewrite (range_cons _ _ _ _ Ed).
    rewrite (rangeFrom_head _ _ _ _ _ Ed). rewrite rangeFrom_skip.
    assert (Hl : (length (skipn n (c :: s)) <= m)%nat).
    { rewrite length_skipn. simpl length in *. lia. }
    destruct n as [|n]; [lia|]. simpl Nat.pred. simpl skipn in *.
    simpl map. f_equal; [f_equal; f_equal; lia|].
    rewrite (IH _ (S pos + n)%nat Hl). rewrite (IH _ (S n) Hl).
    rewrite map_map. apply map_ext. intros [[p r'] n']. simpl. f_equal. f_equal. lia.
Qed.

(** One decoding step of [[]rune(s)]. *)
Lemma runes_cons : forall c s r n,
  DecodeRune (c :: s) = (r, n) ->
  runes (c :: s) = r :: runes (skipn n (c :: s)).
Proof.
  intros c s r n H. unfold runes, range. rewrite (range_cons _ _ _ _ H).
  simpl map. f_equal.
  rewrite (rangeFrom_shift (length (skipn n (c :: s))) _ n (Nat.le_refl _)).
  rewrite map_map. reflexivity.
Qed.

Lemma runes_nil : runes [] = [].
Proof. reflexivity. Qed.

(** Induction along the decoding steps. *)
Lemma rune_ind : forall P : gostring -> Prop,
  P [] ->
  (forall c s r n,
      DecodeRune (c :: s) = (r, n) -> (1 <= n <= length (c :: s))%nat ->
      P (skipn n (c :: s)) -> P (c :: s)) ->
  forall s, P s.
Proof.
  intros P H0 HS s.
  remember (length s) as m eqn:Em.
  revert s Em. induction m as [m IH] using lt_wf_ind. intros s Em.
  destruct s as [|c s]; [exact H0|].
  destruct (DecodeRune (c :: s)) as [r n] eqn:Ed.
  pose proof (DecodeRune_size _ _ _ _ Ed) as Hn.
  apply (HS c s r n Ed Hn).
  apply (IH (length (skipn n (c :: s)))); [|reflexivity].
  rewrite length_skipn. simpl length in *. lia.
Qed.

(** ** Strings that survive the conversion to runes and back *)

Lemma gostring_eqb_eq : forall a b, gostring_eqb a b = true <-> a = b.
Proof.
  induction a as [|x a IH]; intros [|y b]; simpl; split; intro H;
    try reflexivity; try discriminate.
  - apply andb_true_iff in H. destruct H as [H1 H2].
    apply Ascii.eqb_eq in H1. apply IH in H2. congruence.
  - inversion H; subst. rewrite Ascii.eqb_refl. simpl. apply IH. reflexivity.
Qed.

Lemma runeCleanFrom_skip : forall s k,
  runeCleanFrom k s = runeCleanFrom 0 (skipn k s).
Proof.
  induction s as [|c s IH]; intros k.
  - destruct k; reflexivity.
  - destruct k as [|k]; [reflexivity|]. simpl runeCleanFrom at 1. apply IH.
Qed.

Lemma runeClean_cons : forall c s r n,
  DecodeRune (c :: s) = (r, n) ->
  (runeClean (c :: s) <->
   EncodeRune r = firstn n (c :: s) /\ runeClean (skipn n (c :: s))).
Proof.
  intros c s r n H. unfold runeClean.
  change (runeCleanFrom 0 (c :: s)) with
    (let '(r, n) := DecodeRune (c :: s) in
     gostring_eqb (EncodeRune r) (firstn n (c :: s)) && runeCleanFrom (Nat.pred n) s).
  rewrite H. rewrite andb_true_iff, gostring_eqb_eq.
  pose proof (DecodeRune_size _ _ _ _ H) as [L _].
  rewrite runeCleanFrom_skip.
  destruct n as [|n]; [lia|]. reflexivity.
Qed.

Lemma sizes_cons : forall c s r n,
  DecodeRune (c :: s) = (r, n) ->
  map (fun e => snd e) (range (c :: s))
  = n :: map (fun e => snd e) (range (skipn n (c :: s))).
Proof.
  intros c s r n H. unfold range. rewrite (range_cons _ _ _ _ H).
  simpl map. f_equal.
  rewrite (rangeFrom_shift (length (skipn n (c :: s))) _ n (Nat.le_refl _)).
  rewrite map_map. reflexivity.
Qed.

Lemma bytesOf_0 : forall s, bytesOf 0 s = 0%nat.
Proof. reflexivity. Qed.

Lemma bytesOf_nil : forall i, bytesOf i [] = 0%nat.
Proof. intro i. unfold bytesOf. simpl. rewrite firstn_nil. reflexivity. Qed.

Lemma bytesOf_S : forall c s r n i,
  DecodeRune (c :: s) = (r, n) ->
  bytesOf (S i) (c :: s) = (n + bytesOf i (skipn n (c :: s)))%nat.
Proof.
  intros c s r n i H. unfold bytesOf. rewrite (sizes_cons _ _ _ _ H). reflexivity.
Qed.

Lemma bytesOf_le : forall s i, (bytesOf i s <= length s)%nat.
Proof.
  intro s. induction s as [|c s r n Hd Hn IH] using rune_ind; intro i.
  - rewrite bytesOf_nil. simpl. lia.
  - destruct i as [|i]; [rewrite bytesOf_0; lia|].
    rewrite (bytesOf_S _ _ _ _ _ Hd). specialize (IH i).
    rewrite length_skipn in IH. lia.
Qed.





Lemma firstn_add : forall (A : Type) (l : list A) n k,
  firstn (n + k) l = firstn n l ++ firstn k (skipn n l).
Proof.
  intros A l n k. revert l. induction n as [|n IH]; intros l; [reflexivity|].
  destruct l as [|x l]; [simpl; rewrite firstn_nil; reflexivity|].
  simpl. f_equal. apply IH.
Qed.

(** On a clean string the conversion of the first [i] runes back to a
    string is a prefix of the string. *)
Lemma runeClean_firstn : forall s i,
  runeClean s ->
  string_of_runes (firstn i (runes s)) = firstn (bytesOf i s) s.
Proof.
  intro s. induction s as [|c s r n Hd Hn IH] using rune_ind; intros i H.
  - rewrite bytesOf_nil, runes_nil, firstn_nil. reflexivity.
  - destruct i as [|i]; [reflexivity|].
    rewrite (bytesOf_S _ _ _ _ _ Hd), (runes_cons _ _ _ _ Hd).
    apply (runeClean_cons _ _ _ _ Hd) in H. destruct H as [He H].
    simpl firstn at 1. unfold string_of_runes in *. simpl flat_map.
    rewrite IH by exact H. rewrite He. symmetry. apply firstn_add.
Qed.

(** Every rune takes at least one byte. *)
Lemma bytesOf_lt : forall s i,
  (i < length (runes s))%nat -> (bytesOf i s < length s)%nat.
Proof.
  intro s. induction s as [|c s r n Hd Hn IH] using rune_ind; intros i H.
  - rewrite runes_nil in H. simpl in H. lia.
  - rewrite (runes_cons _ _ _ _ Hd) in H. simpl length in H.
    destruct i as [|i]; [rewrite bytesOf_0; simpl; lia|].
    rewrite (bytesOf_S _ _ _ _ _ Hd).
    assert (Hi : (i < length (runes (skipn n (c :: s))))%nat) by lia.
    specialize (IH i Hi). rewrite length_skipn in IH. lia.
Qed.



(** ** Truncation to a width *)

Section Truncation.

Variable RuneWidth : rune -> Z.
Hypothesis RuneWidth_nonneg : forall r, 0 <= RuneWidth r.

Lemma fold_width_acc : forall rs a,
  fold_left (fun width r => width + RuneWidth r) rs a = a + sumWidth RuneWidth rs.
Proof.
  unfold sumWidth. induction rs as [|r rs IH]; intro a; simpl.
  - lia.
  - rewrite IH. rewrite (IH (RuneWidth r)). lia.
Qed.

Lemma sumWidth_cons : forall r rs, sumWidth RuneWidth (r :: rs) = RuneWidth r + sumWidth RuneWidth rs.
Proof.
  intros r rs. unfold sumWidth at 1. simpl. rewrite fold_width_acc. lia.
Qed.

Lemma sumWidth_nonneg : forall rs, 0 <= sumWidth RuneWidth rs.
Proof.
  induction rs as [|r rs IH]; [unfold sumWidth; simpl; lia|].
  rewrite sumWidth_cons. pose proof (RuneWidth_nonneg r). lia.
Qed.


Lemma StringWidth_runes : forall s,
  runewidth.StringWidth RuneWidth s = sumWidth RuneWidth (runes s).
Proof. reflexivity. Qed.

(** The loop of [Truncate] stops inside the runes when they do not all
    fit. *)
Lemma truncateLoop_lt : forall rs w acc,
  acc <= w -> w < acc + sumWidth RuneWidth rs ->
  (runewidth.truncateLoop RuneWidth rs w acc < length rs)%nat.
Proof.
  induction rs as [|r rs IH]; intros w acc Ha H.
  - unfold sumWidth in H. simpl in H. lia.
  - simpl. destruct (Z.ltb_spec w (acc + RuneWidth r)); [lia|].
    rewrite sumWidth_cons in H.
    specialize (IH w (acc + RuneWidth r)). lia.
Qed.

Lemma truncateLoop_le : forall rs w acc,
  (runewidth.truncateLoop RuneWidth rs w acc <= length rs)%nat.
Proof.
  induction rs as [|r rs IH]; intros w acc; simpl; [lia|].
  destruct (w <? acc + RuneWidth r); [lia|].
  specialize (IH w (acc + RuneWidth r)). lia.
Qed.




Lemma Truncate_keep : forall s w,
  runeClean s ->
  runewidth.Truncate RuneWidth s w [] = firstn (keep RuneWidth w s) s.
Proof.
  intros s w Hc. unfold runewidth.Truncate, keep.
  destruct (runewidth.StringWidth RuneWidth s <=? w).
  - rewrite firstn_all. reflexivity.
  - rewrite app_nil_r.
    change (runewidth.StringWidth RuneWidth []) with 0.
    rewrite Z.sub_0_r. apply runeClean_firstn. exact Hc.
Qed.

Lemma keep_le : forall w s, (keep RuneWidth w s <= length s)%nat.
Proof.
  intros w s. unfold keep.
  destruct (runewidth.StringWidth RuneWidth s <=? w); [lia | apply bytesOf_le].
Qed.


(** When the string does not fit, a proper prefix is kept. *)
Lemma keep_proper : forall w s,
  0 <= w ->
  w < runewidth.StringWidth RuneWidth s -> (keep RuneWidth w s < length s)%nat.
Proof.
  intros w s Hw H. unfold keep.
  destruct (Z.leb_spec (runewidth.StringWidth RuneWidth s) w); [lia|].
  apply bytesOf_lt. apply truncateLoop_lt; [exact Hw|].
  rewrite StringWidth_runes in H. lia.
Qed.

Lemma keep_all : forall w s,
  runewidth.StringWidth RuneWidth s <= w -> keep RuneWidth w s = length s.
Proof.
  intros w s H. unfold keep.
  destruct (Z.leb_spec (runewidth.StringWidth RuneWidth s) w); [reflexivity | lia].
Qed.



End Truncation.

(** ** Matches of the whitespace and boundary expressions *)

Lemma takeWhile_length : forall f u, (length (takeWhile f u) <= length u)%nat.
Proof.
  intros f u. induction u as [|c u IH]; simpl; [lia|].
  destruct (f c); simpl; lia.
Qed.

Lemma takeWhile_all : forall f u i,
  (i < length (takeWhile f u))%nat -> f (nth i u zero) = true.
Proof.
  intros f u. induction u as [|c u IH]; intros i H; simpl in H; [lia|].
  destruct (f c) eqn:E; simpl in H; [|lia].
  destruct i as [|i]; [exact E|]. simpl. apply IH. lia.
Qed.



Lemma findFrom_start : forall re u k pos m,
  In m (regexp.findFrom re k pos u) -> (pos <= fst (fst m))%nat.
Proof.
  intros re u. induction u as [|c u IH]; intros k pos m H; simpl in H.
  - contradiction.
  - destruct k as [|k].
    + destruct (regexp.matchAt re (c :: u)) as [[[|n] gs]|].
      * apply IH in H. lia.
      * destruct H as [H | H]; [subst; simpl; lia | apply IH in H; lia].
      * apply IH in H. lia.
    + apply IH in H. lia.
Qed.

(** [spacePattern.FindStringIndex] finds a match at position 0 exactly
    when the text starts with whitespace; the match is the whole run. *)
Lemma FindStringIndex_space : forall u,
  match regexp.FindStringIndex spacePattern u with
  | Some (O, e) => e = length (takeWhile isSpace u) /\ (1 <= e)%nat
  | _ => takeWhile isSpace u = []
  end.
Proof.
  intro u. unfold regexp.FindStringIndex, regexp.FindAllStringIndex, regexp.findAll.
  destruct u as [|c u]; [reflexivity|].
  simpl regexp.findFrom. simpl takeWhile.
  destruct (isSpace c) eqn:E.
  - simpl. split; [reflexivity | lia].
  - destruct (regexp.findFrom spacePattern 0 1 u) as [|m ms] eqn:Ef; [reflexivity|].
    simpl. pose proof (findFrom_start spacePattern u 0 1 m) as L.
    rewrite Ef in L. specialize (L (or_introl eq_refl)).
    destruct m as [[b e] gs]. simpl in *. destruct b; [lia | reflexivity].
Qed.

Lemma last_error_cons : forall (A : Type) (x : A) l,
  last_error (x :: l) = match last_error l with Some y => Some y | None => Some x end.
Proof.
  intros A x l. revert x. induction l as [|y l IH]; intro x; [reflexivity|].
  change (last_error (x :: y :: l)) with (last_error (y :: l)).
  rewrite IH. destruct (last_error l); reflexivity.
Qed.

Lemma matchAt_boundary : forall c u,
  regexp.matchAt boundaryPattern (c :: u) =
  if isBoundary c
  then Some (S (length (takeWhile isSpace u)),
             [c :: takeWhile isSpace u])
  else None.
Proof.
  intros c u. unfold isBoundary. simpl.
  destruct (isPunct c); [reflexivity|].
  destruct (isSpace c); reflexivity.
Qed.

(** The last boundary match ends right after the last boundary
    character.  [k] characters of the current match are still to be
    passed; they are whitespace. *)
Lemma boundary_last : forall u k pos,
  (k <= length u)%nat ->
  (forall i, (i < k)%nat -> isSpace (nth i u zero) = true) ->
  match last_error (map (fun m : regexp.Match => fst m)
                        (regexp.findFrom boundaryPattern k pos u)) with
  | None =>
    forall i, (k <= i < length u)%nat -> isBoundary (nth i u zero) = false
  | Some (b, e) =>
    exists m, e = (pos + m)%nat /\ (k < m <= length u)%nat /\
              isBoundary (nth (m - 1) u zero) = true /\
              forall i, (m <= i < length u)%nat -> isBoundary (nth i u zero) = false
  end.
Proof.
  induction u as [|c u IH]; intros k pos Hk Hsp.
  - simpl. intros i Hi. lia.
  - destruct k as [|k].
    + change (regexp.findFrom boundaryPattern 0 pos (c :: u)) with
        (match regexp.matchAt boundaryPattern (c :: u) with
         | Some (S n, gs) =>
           (pos, (pos + S n)%nat, gs) :: regexp.findFrom boundaryPattern n (S pos) u
         | _ => regexp.findFrom boundaryPattern 0 (S pos) u
         end).
      rewrite matchAt_boundary.
      destruct (isBoundary c) eqn:Eb.
      * set (n := length (takeWhile isSpace u)).
        assert (Hn : (n <= length u)%nat) by apply takeWhile_length.
        assert (Hsp' : forall i, (i < n)%nat -> isSpace (nth i u zero) = true)
          by (intros i Hi; apply takeWhile_all; exact Hi).
        specialize (IH n (S pos) Hn Hsp').
        simpl map. rewrite last_error_cons.
        destruct (last_error _) as [[b e]|].
        -- destruct IH as [m [E [L [B N]]]].
           exists (S m). simpl length.
           split; [lia|]. split; [lia|]. split.
           ++ destruct m as [|m]; [lia|].
              replace (S (S m) - 1)%nat with (S m) by lia.
              replace (S m - 1)%nat with m in B by lia. exact B.
           ++ intros i Hi. destruct i as [|i]; [lia|]. simpl. apply N. lia.
        -- exists (S n). simpl length. simpl fst.
           split; [reflexivity|]. split; [lia|]. split.
           ++ replace (S n - 1)%nat with n by lia.
              destruct n as [|n'] eqn:En; [exact Eb|].
              simpl nth. unfold isBoundary. rewrite (Hsp' n') by lia.
              apply orb_true_r.
           ++ intros i Hi. destruct i as [|i]; [lia|]. simpl. apply IH. lia.
      * specialize (IH 0%nat (S pos) (Nat.le_0_l _)
                       (fun i (H : (i < 0)%nat) => False_ind _ (Nat.nlt_0_r _ H))).
        destruct (last_error _) as [[b e]|].
        -- destruct IH as [m [E [L [B N]]]].
           exists (S m). simpl length.
           split; [lia|]. split; [lia|]. split.
           ++ destruct m as [|m]; [lia|].
              replace (S (S m) - 1)%nat with (S m) by lia.
              replace (S m - 1)%nat with m in B by lia. exact B.
           ++ intros i Hi. destruct i as [|i]; [lia|]. simpl. apply N. lia.
        -- intros i Hi. destruct i as [|i]; [exact Eb|]. simpl. apply IH.
           simpl in Hi. lia.
    + simpl regexp.findFrom.
      assert (Hk' : (k <= length u)%nat) by (simpl in Hk; lia).
      assert (Hsp' : forall i, (i < k)%nat -> isSpace (nth i u zero) = true).
      { intros i Hi. apply (Hsp (S i)). lia. }
      specialize (IH k (S pos) Hk' Hsp').
      destruct (last_error _) as [[b e]|].
      * destruct IH as [m [E [L [B N]]]].
        exists (S m). simpl length.
        split; [lia|]. split; [lia|]. split.
        -- destruct m as [|m]; [lia|].
           replace (S (S m) - 1)%nat with (S m) by lia.
           replace (S m - 1)%nat with m in B by lia. exact B.
        -- intros i Hi. destruct i as [|i]; [lia|]. simpl. apply N. lia.
      * intros i Hi. destruct i as [|i]; [lia|]. simpl. apply IH.
        simpl in Hi. lia.
Qed.

Lemma boundaryCut_spec : forall u,
  (boundaryCut u <= length u)%nat /\
  ((boundaryCut u = length u /\
    forall i, (i < length u)%nat -> isBoundary (nth i u zero) = false) \/
   ((1 <= boundaryCut u)%nat /\
    isBoundary (nth (boundaryCut u - 1) u zero) = true /\
    forall i, (boundaryCut u <= i < length u)%nat ->
              isBoundary (nth i u zero) = false)).
Proof.
  intro u. unfold boundaryCut, regexp.FindAllStringIndex, regexp.findAll.
  pose proof (boundary_last u 0 0 (Nat.le_0_l _)
                (fun i (H : (i < 0)%nat) => False_ind _ (Nat.nlt_0_r _ H))) as B.
  destruct (last_error _) as [[b e]|].
  - destruct B as [m [E [L [Bm N]]]]. simpl in E. subst e.
    split; [lia|]. right. split; [lia|]. split; assumption.
  - split; [lia|]. left. split; [reflexivity|].
    intros i Hi. apply B. lia.
Qed.


(** ** The pieces carved by the splitting loop *)



Section Carving.

Variable RuneWidth : rune -> Z.
Hypothesis RuneWidth_nonneg : forall r, 0 <= RuneWidth r.

Lemma spaceRun_le : forall w s,
  (keep RuneWidth w s + spaceRun RuneWidth w s <= length s)%nat.
Proof.
  intros w s. unfold spaceRun.
  pose proof (takeWhile_length isSpace (skipn (keep RuneWidth w s) s)) as L.
  rewrite length_skipn in L. pose proof (keep_le RuneWidth w s). lia.
Qed.

Lemma carve_clean : forall ww w s,
  runeClean s ->
  carve RuneWidth ww w s = firstn (cutLen RuneWidth ww w s) s.
Proof.
  intros ww w s Hc. unfold carve, cutLen.
  rewrite (Truncate_keep RuneWidth s w Hc).
  pose proof (keep_le RuneWidth w s) as Lk.
  rewrite length_firstn, Nat.min_l by exact Lk.
  destruct (ww && (keep RuneWidth w s <? length s)%nat); [|reflexivity].
  assert (E : match regexp.FindStringIndex spacePattern
                      (skipn (keep RuneWidth w s) s) with
              | Some (O, e) => firstn (keep RuneWidth w s + e) s
              | _ => firstn (keep RuneWidth w s) s
              end
              = firstn (keep RuneWidth w s + spaceRun RuneWidth w s) s).
  { unfold spaceRun.
    pose proof (FindStringIndex_space (skipn (keep RuneWidth w s) s)) as F.
    destruct (regexp.FindStringIndex spacePattern (skipn (keep RuneWidth w s) s))
      as [[[|b] e]|].
    - destruct F as [F _]. rewrite F. reflexivity.
    - rewrite F. simpl. rewrite Nat.add_0_r. reflexivity.
    - rewrite F. simpl. rewrite Nat.add_0_r. reflexivity. }
  rewrite E.
  set (ext := firstn (keep RuneWidth w s + spaceRun RuneWidth w s) s).
  unfold boundaryCut.
  destruct (last_error (regexp.FindAllStringIndex boundaryPattern ext))
    as [[b e]|] eqn:El.
  - pose proof (boundaryCut_spec ext) as [L _].
    unfold boundaryCut in L. rewrite El in L.
    unfold ext in *. rewrite firstn_firstn. f_equal.
    rewrite length_firstn in L. lia.
  - unfold ext. rewrite length_firstn, Nat.min_l by apply spaceRun_le.
    reflexivity.
Qed.

Lemma cutLen_le : forall ww w s, (cutLen RuneWidth ww w s <= length s)%nat.
Proof.
  intros ww w s. unfold cutLen.
  destruct (ww && (keep RuneWidth w s <? length s)%nat).
  - pose proof (boundaryCut_spec (firstn (keep RuneWidth w s + spaceRun RuneWidth w s) s))
      as [L _].
    rewrite length_firstn in L. lia.
  - apply keep_le.
Qed.

Lemma carve_length : forall ww w s,
  runeClean s -> length (carve RuneWidth ww w s) = cutLen RuneWidth ww w s.
Proof.
  intros ww w s Hc. rewrite (carve_clean ww w s Hc).
  rewrite length_firstn. pose proof (cutLen_le ww w s). lia.
Qed.







End Carving.

(** ** Width monotonicity of the number of pieces *)

Section Monotonicity.

Variable RuneWidth : rune -> Z.
Hypothesis RuneWidth_nonneg : forall r, 0 <= RuneWidth r.







End Monotonicity.

(** ** Reassembling the text from the index *)

Section RoundTrip.

Variable RuneWidth : rune -> Z.
Variable GetColor : gostring -> Z.
Variable escapePattern : regexp.Regexp.

















End RoundTrip.

(** ** What a write commits *)




Section Layout.

Variable RuneWidth : rune -> Z.
Hypothesis RuneWidth_nonneg : forall r, 0 <= RuneWidth r.
Variable GetColor : gostring -> Z.
Variable escapePattern : regexp.Regexp.




End Layout.


Lemma asciiRuneWidth_printable : forall r, 32 <= r < 127 -> asciiRuneWidth r = 1.
Proof.
  intros r H. unfold asciiRuneWidth.
  destruct (Z.ltb_spec r 32); [lia|].
  destruct (Z.eqb_spec r 127); [lia | reflexivity].
Defined.

(** ** Matches of the tag expressions *)

Lemma findFrom_eq : forall re pos c u,
  regexp.findFrom re 0 pos (c :: u) =
  match regexp.matchAt re (c :: u) with
  | Some (S n, gs) => (pos, (pos + S n)%nat, gs) :: regexp.findFrom re n (S pos) u
  | _ => regexp.findFrom re 0 (S pos) u
  end.
Proof. reflexivity. Qed.

(** Every match found is a match of the anchored matcher at its start
    position. *)
Lemma findFrom_sound : forall re u k pos b e gs,
  In (b, e, gs) (regexp.findFrom re k pos u) ->
  (pos + k <= b)%nat /\
  exists n, e = (b + S n)%nat /\
            regexp.matchAt re (skipn (b - pos) u) = Some (S n, gs).
Proof.
  intros re u. induction u as [|c u IH]; intros k pos b e gs H.
  - contradiction.
  - destruct k as [|k].
    + rewrite findFrom_eq in H.
      destruct (regexp.matchAt re (c :: u)) as [[[|n] gs']|] eqn:Em.
      * apply IH in H. destruct H as [L [n' [E M]]].
        split; [lia|]. exists n'. split; [exact E|].
        replace (b - pos)%nat with (S (b - S pos)) by lia. exact M.
      * destruct H as [H | H].
        -- inversion H; subst. split; [lia|]. exists n. split; [reflexivity|].
           rewrite Nat.sub_diag. exact Em.
        -- apply IH in H. destruct H as [L [n' [E M]]].
           split; [lia|]. exists n'. split; [exact E|].
           replace (b - pos)%nat with (S (b - S pos)) by lia. exact M.
      * apply IH in H. destruct H as [L [n' [E M]]].
        split; [lia|]. exists n'. split; [exact E|].
        replace (b - pos)%nat with (S (b - S pos)) by lia. exact M.
    + simpl in H. apply IH in H. destruct H as [L [n' [E M]]].
      split; [lia|]. exists n'. split; [exact E|].
      replace (b - pos)%nat with (S (b - S pos)) by lia. exact M.
Qed.

Lemma findFrom_ordered : forall re u k pos,
  ordered (map (fun m : regexp.Match => fst m) (regexp.findFrom re k pos u)).
Proof.
  intros re u. induction u as [|c u IH]; intros k pos; [exact I|].
  destruct k as [|k]; [|apply IH].
  rewrite findFrom_eq.
  destruct (regexp.matchAt re (c :: u)) as [[[|n] gs']|]; try apply IH.
  simpl map. simpl ordered. split; [lia|]. split; [|apply IH].
  destruct (regexp.findFrom re n (S pos) u) as [|[[b' e'] gs''] rest] eqn:Ef;
    [exact I|].
  simpl.
  destruct (findFrom_sound re u n (S pos) b' e' gs'') as [L _];
    [rewrite Ef; left; reflexivity | lia].
Qed.

(** A match of the anchored matcher at a position that no match found
    covers is found. *)
Lemma findFrom_complete : forall re, bounded re -> forall u k pos q n gs,
  (k <= q)%nat ->
  regexp.matchAt re (skipn q u) = Some (S n, gs) ->
  (forall b e gs', In (b, e, gs') (regexp.findFrom re k pos u) ->
                   ~ (b < pos + q < e)%nat) ->
  In ((pos + q)%nat, (pos + q + S n)%nat, gs) (regexp.findFrom re k pos u).
Proof.
  intros re Hb u. induction u as [|c u IH]; intros k pos q n gs Hk Hm Hc.
  - rewrite skipn_nil in Hm. apply Hb in Hm. simpl in Hm. lia.
  - destruct k as [|k].
    + rewrite findFrom_eq in Hc |- *.
      destruct q as [|q].
      * simpl skipn in Hm. rewrite Hm. left.
        replace (pos + 0)%nat with pos by lia. reflexivity.
      * simpl skipn in Hm.
        replace (pos + S q)%nat with (S pos + q)%nat in * by lia.
        destruct (regexp.matchAt re (c :: u)) as [[[|m] gs']|] eqn:Em.
        -- apply IH; [lia | exact Hm | exact Hc].
        -- right. apply IH; [| exact Hm |].
           ++ assert (Hh := Hc pos (pos + S m)%nat gs' (or_introl eq_refl)). lia.
           ++ intros b e g Hin. apply (Hc b e g). right. exact Hin.
        -- apply IH; [lia | exact Hm | exact Hc].
    + destruct q as [|q]; [lia|].
      simpl skipn in Hm. simpl regexp.findFrom in Hc |- *.
      replace (pos + S q)%nat with (S pos + q)%nat in * by lia.
      apply IH; [lia | exact Hm | exact Hc].
Qed.

(** *** The shape of the tags *)

Lemma takeWhile_skipn : forall f s,
  takeWhile f s ++ skipn (length (takeWhile f s)) s = s.
Proof.
  intros f s. induction s as [|c s IH]; [reflexivity|].
  simpl. destruct (f c); simpl; [f_equal; exact IH | reflexivity].
Qed.

Lemma takeWhile_forallb : forall f s, forallb f (takeWhile f s) = true.
Proof.
  intros f s. induction s as [|c s IH]; [reflexivity|].
  simpl. destruct (f c) eqn:E; simpl; [rewrite E; exact IH | reflexivity].
Qed.

Lemma takeWhile_app_stop : forall f s c v,
  forallb f s = true -> f c = false -> takeWhile f (s ++ c :: v) = s.
Proof.
  intros f s c v. induction s as [|d s IH]; simpl; intros H Hc.
  - rewrite Hc. reflexivity.
  - apply andb_true_iff in H. destruct H as [Hd H]. rewrite Hd.
    f_equal. apply IH; assumption.
Qed.

Lemma regionPattern_cons : forall c u,
  regexp.matchAt regionPattern (c :: u) =
  if Ascii.eqb c "[" then
    match u with
    | q :: rest =>
      if Ascii.eqb q quote then
        let id := takeWhile isRegionChar rest in
        match skipn (length id) rest with
        | q' :: c2 :: _ =>
          if Ascii.eqb c2 "]" then
            if Ascii.eqb q' quote then Some ((4 + length id)%nat, [id]) else None
          else None
        | _ => None
        end
      else None
    | [] => None
    end
  else None.
Proof.
  intros c u.
  destruct c as [[] [] [] [] [] [] [] []]; try reflexivity.
  destruct u as [|q rest]; [reflexivity|].
  cbn [regexp.matchAt regionPattern Ascii.eqb Bool.eqb].
  destruct (Ascii.eqb q quote); [|reflexivity].
  cbv zeta.
  destruct (skipn (length (takeWhile isRegionChar rest)) rest) as [|q' [|c2 tl]];
    try reflexivity.
  destruct c2 as [[] [] [] [] [] [] [] []]; reflexivity.
Qed.

(** A match of the region expression is a region tag. *)
Lemma regionPattern_shape : forall u n gs,
  regexp.matchAt regionPattern u = Some (n, gs) ->
  exists id tl, u = tagOpen id ++ tl /\ gs = [id] /\
                n = length (tagOpen id) /\ forallb isRegionChar id = true.
Proof.
  intros u n gs H. destruct u as [|c u]; [discriminate|].
  rewrite regionPattern_cons in H.
  destruct (Ascii.eqb_spec c "["%char) as [-> |]; [|discriminate].
  destruct u as [|q rest]; [discriminate|].
  destruct (Ascii.eqb_spec q quote) as [-> |]; [|discriminate].
  cbv zeta in H.
  assert (Hs := takeWhile_skipn isRegionChar rest).
  assert (Hf := takeWhile_forallb isRegionChar rest).
  set (id := takeWhile isRegionChar rest) in *.
  destruct (skipn (length id) rest) as [|q' [|c2 tl]]; try discriminate.
  destruct (Ascii.eqb_spec c2 "]"%char) as [-> |]; [|discriminate].
  destruct (Ascii.eqb_spec q' quote) as [-> |]; [|discriminate].
  inversion H; subst n gs. exists id, tl. repeat split.
  - unfold tagOpen. simpl. rewrite <- app_assoc. simpl. rewrite Hs. reflexivity.
  - unfold tagOpen. simpl. rewrite length_app. simpl. lia.
  - exact Hf.
Qed.

Lemma isRegionChar_quote : isRegionChar quote = false.
Proof. reflexivity. Qed.

(** A region tag is matched by the region expression. *)
Lemma regionPattern_tag : forall id v,
  forallb isRegionChar id = true ->
  regexp.matchAt regionPattern (tagOpen id ++ v) =
  Some (length (tagOpen id), [id]).
Proof.
  intros id v H. unfold tagOpen.
  change (("["%char :: quote :: id ++ [quote; "]"%char]) ++ v)
    with ("["%char :: quote :: (id ++ [quote; "]"%char]) ++ v).
  rewrite regionPattern_cons.
  change (Ascii.eqb "[" "[") with true. change (Ascii.eqb quote quote) with true.
  cbv iota. rewrite <- app_assoc. cbv zeta.
  change ([quote; "]"%char] ++ v) with (quote :: "]"%char :: v).
  rewrite (takeWhile_app_stop isRegionChar id quote ("]"%char :: v) H isRegionChar_quote).
  rewrite skipn_app, skipn_all, Nat.sub_diag. simpl skipn. simpl app.
  change (Ascii.eqb "]" "]") with true. change (Ascii.eqb quote quote) with true.
  cbv iota.
  replace (length ("["%char :: quote :: id ++ [quote; "]"%char]))
    with (4 + length id)%nat; [reflexivity|].
  simpl. rewrite length_app. simpl. lia.
Qed.

Lemma regionPattern_bounded : bounded regionPattern.
Proof.
  intros u n gs H. apply regionPattern_shape in H.
  destruct H as [id [tl [-> [_ [-> _]]]]]. rewrite length_app. lia.
Qed.

Lemma regionChar_ascii : forall c,
  isRegionChar c = true -> byteZ c < 128 /\ c <> "["%char.
Proof.
  intros c H. split.
  - unfold isRegionChar, isAlnum, isLetter, inRange in H.
    repeat (apply orb_true_iff in H; destruct H as [H | H]);
    repeat (apply andb_true_iff in H; destruct H as [? H]); lia.
  - intros ->. discriminate.
Qed.

Lemma tagOpen_nth : forall id tl i,
  forallb isRegionChar id = true ->
  (0 < i < length (tagOpen id))%nat ->
  byteZ (nth i (tagOpen id ++ tl) zero) < 128 /\
  nth i (tagOpen id ++ tl) zero <> "["%char.
Proof.
  intros id tl i H Hi. rewrite app_nth1 by lia.
  unfold tagOpen in *. simpl length in Hi. rewrite length_app in Hi. simpl in Hi.
  destruct i as [|[|i]]; [lia| |].
  - simpl. split; [reflexivity | discriminate].
  - simpl nth.
    destruct (Nat.lt_ge_cases i (length id)) as [L | L].
    + rewrite app_nth1 by exact L. apply regionChar_ascii.
      rewrite forallb_forall in H. apply H. apply nth_In. exact L.
    + rewrite app_nth2 by exact L.
      destruct (i - length id)%nat as [|[|k]] eqn:E; simpl.
      * split; [reflexivity | discriminate].
      * split; [reflexivity | discriminate].
      * lia.
Qed.

Lemma regionPattern_tagAt : forall u n gs,
  regexp.matchAt regionPattern u = Some (n, gs) ->
  tagAt u n /\ nth 1 u zero = quote.
Proof.
  intros u n gs H. apply regionPattern_shape in H.
  destruct H as [id [tl [-> [_ [-> Hid]]]]]. split; [split; [|split]|].
  - rewrite length_app. unfold tagOpen. simpl. lia.
  - reflexivity.
  - intros i Hi. apply tagOpen_nth; assumption.
  - reflexivity.
Qed.

Lemma colorPattern_cons : forall c rest,
  regexp.matchAt colorPattern (c :: rest) =
  if Ascii.eqb c "[" then
    let name := takeWhile isLetter rest in
    match name, skipn (length name) rest with
    | _ :: _, c2 :: _ =>
      if Ascii.eqb c2 "]" then Some ((2 + length name)%nat, [name])
      else
        match rest with
        | h0 :: h1 :: h2 :: h3 :: h4 :: h5 :: h6 :: c3 :: _ =>
          if Ascii.eqb h0 "#" && Ascii.eqb c3 "]" then
            if forallb isHex [h1; h2; h3; h4; h5; h6]
            then Some (9%nat, ["#"%char :: [h1; h2; h3; h4; h5; h6]])
            else None
          else None
        | _ => None
        end
    | _, _ =>
        match rest with
        | h0 :: h1 :: h2 :: h3 :: h4 :: h5 :: h6 :: c3 :: _ =>
          if Ascii.eqb h0 "#" && Ascii.eqb c3 "]" then
            if forallb isHex [h1; h2; h3; h4; h5; h6]
            then Some (9%nat, ["#"%char :: [h1; h2; h3; h4; h5; h6]])
            else None
          else None
        | _ => None
        end
    end
  else None.
Proof.
  intros c rest.
  assert (Hhex : forall r : gostring,
    match r with
    | "#"%char :: h1 :: h2 :: h3 :: h4 :: h5 :: h6 :: "]"%char :: _ =>
      if forallb isHex [h1; h2; h3; h4; h5; h6]
      then Some (9%nat, ["#"%char :: [h1; h2; h3; h4; h5; h6]])
      else None
    | _ => None
    end =
    match r with
    | h0 :: h1 :: h2 :: h3 :: h4 :: h5 :: h6 :: c3 :: _ =>
      if Ascii.eqb h0 "#" && Ascii.eqb c3 "]" then
        if forallb isHex [h1; h2; h3; h4; h5; h6]
        then Some (9%nat, ["#"%char :: [h1; h2; h3; h4; h5; h6]])
        else None
      else None
    | _ => None
    end).
  { intros r.
    destruct r as [|h0 [|h1 [|h2 [|h3 [|h4 [|h5 [|h6 [|c3 tl]]]]]]]];
      try (destruct h0 as [[] [] [] [] [] [] [] []]; reflexivity);
      try reflexivity.
    destruct h0 as [[] [] [] [] [] [] [] []]; try reflexivity.
    destruct c3 as [[] [] [] [] [] [] [] []]; reflexivity. }
  destruct c as [[] [] [] [] [] [] [] []]; try reflexivity.
  cbn [regexp.matchAt colorPattern Ascii.eqb Bool.eqb]. cbv zeta.
  rewrite <- Hhex.
  destruct (takeWhile isLetter rest) as [|l name]; [reflexivity|].
  destruct (skipn (length (l :: name)) rest) as [|c2 tl]; [reflexivity|].
  destruct c2 as [[] [] [] [] [] [] [] []]; reflexivity.
Qed.

Lemma letter_colorChar : forall c, isLetter c = true -> isColorChar c = true.
Proof.
  intros c H. unfold isColorChar, isAlnum. rewrite H.
  rewrite orb_true_r. reflexivity.
Qed.

Lemma hex_colorChar : forall c, isHex c = true -> isColorChar c = true.
Proof.
  intros c. unfold isColorChar, isAlnum, isLetter, isHex, inRange.
  repeat match goal with
         | |- context [?a <=? ?b] => destruct (Z.leb_spec a b)
         end; simpl; intros; try reflexivity; try discriminate; lia.
Qed.

(** A match of the color expression: a bracket, characters of the color
    class, a bracket. *)
Lemma colorPattern_shape : forall u n gs,
  regexp.matchAt colorPattern u = Some (n, gs) ->
  exists m tl, u = "["%char :: m ++ "]"%char :: tl /\
               n = (2 + length m)%nat /\ m <> [] /\
               forallb isColorChar m = true.
Proof.
  intros u n gs H. destruct u as [|c rest]; [discriminate|].
  rewrite colorPattern_cons in H.
  destruct (Ascii.eqb_spec c "["%char) as [-> |]; [|discriminate].
  cbv zeta in H.
  assert (Hs := takeWhile_skipn isLetter rest).
  assert (Hf := takeWhile_forallb isLetter rest).
  assert (Hhex :
    match rest with
    | h0 :: h1 :: h2 :: h3 :: h4 :: h5 :: h6 :: c3 :: _ =>
      if Ascii.eqb h0 "#" && Ascii.eqb c3 "]" then
        if forallb isHex [h1; h2; h3; h4; h5; h6]
        then Some (9%nat, ["#"%char :: [h1; h2; h3; h4; h5; h6]])
        else None
      else None
    | _ => None
    end = Some (n, gs) ->
    exists m tl, "["%char :: rest = "["%char :: m ++ "]"%char :: tl /\
               n = (2 + length m)%nat /\ m <> [] /\
               forallb isColorChar m = true).
  { clear. intro H.
    destruct rest as [|h0 [|h1 [|h2 [|h3 [|h4 [|h5 [|h6 [|c3 tl]]]]]]]];
      try discriminate.
    destruct (Ascii.eqb_spec h0 "#"%char) as [-> |]; [|discriminate].
    destruct (Ascii.eqb_spec c3 "]"%char) as [-> |]; [|discriminate].
    simpl andb in H.
    destruct (forallb isHex [h1; h2; h3; h4; h5; h6]) eqn:Eh; [|discriminate].
    inversion H; subst.
    exists ("#"%char :: [h1; h2; h3; h4; h5; h6]), tl.
    repeat split; [discriminate|].
    simpl in Eh. repeat (apply andb_true_iff in Eh; destruct Eh as [? Eh]).
    simpl. rewrite !hex_colorChar by assumption. reflexivity. }
  destruct (takeWhile isLetter rest) as [|l name] eqn:En; [exact (Hhex H)|].
  destruct (skipn (length (l :: name)) rest) as [|c2 tl] eqn:Es; [exact (Hhex H)|].
  destruct (Ascii.eqb_spec c2 "]"%char) as [-> |]; [|exact (Hhex H)].
  inversion H; subst n gs. exists (l :: name), tl. repeat split.
  - rewrite <- Hs at 1. reflexivity.
  - discriminate.
  - clear -Hf. induction (l :: name) as [|x xs IH]; [reflexivity|].
    simpl in *. apply andb_true_iff in Hf. destruct Hf as [Hx Hf].
    rewrite (letter_colorChar x Hx). apply IH. exact Hf.
Qed.

Lemma colorChar_ascii : forall c,
  isColorChar c = true ->
  byteZ c < 128 /\ c <> "["%char /\ c <> quote.
Proof.
  intros c H. split; [|split].
  - unfold isColorChar, isAlnum, isLetter, inRange in H.
    repeat (apply orb_true_iff in H; destruct H as [H | H]);
    repeat (apply andb_true_iff in H; destruct H as [? H]); lia.
  - intros ->. discriminate.
  - intros ->. discriminate.
Qed.

Lemma colorPattern_tagAt : forall u n gs,
  regexp.matchAt colorPattern u = Some (n, gs) ->
  tagAt u n /\ nth 1 u zero <> quote.
Proof.
  intros u n gs H. apply colorPattern_shape in H.
  destruct H as [m [tl [-> [-> [Hm Hc]]]]].
  assert (Hn : forall i, (i < length m)%nat ->
             isColorChar (nth i m zero) = true).
  { intros i Hi. rewrite forallb_forall in Hc. apply Hc. apply nth_In. exact Hi. }
  split; [split; [|split]|].
  - simpl. rewrite length_app. simpl. lia.
  - reflexivity.
  - intros i Hi. destruct i as [|i]; [lia|]. simpl nth.
    destruct (Nat.lt_ge_cases i (length m)) as [L | L].
    + rewrite app_nth1 by exact L.
      destruct (colorChar_ascii _ (Hn i L)) as [A [B _]]. split; assumption.
    + rewrite app_nth2 by exact L.
      replace (i - length m)%nat with 0%nat by lia. simpl.
      split; [reflexivity | discriminate].
  - simpl nth. destruct m as [|x m]; [congruence|]. simpl.
    apply colorChar_ascii. apply (Hn 0%nat). simpl. lia.
Qed.

Lemma colorPattern_bounded : bounded colorPattern.
Proof.
  intros u n gs H. apply colorPattern_tagAt in H.
  destruct H as [[H _] _]. lia.
Qed.

(** ** Decoding next to an ASCII byte *)

Ltac ev_goal X :=
  let a := eval vm_compute in (as_ <=? X) in change (as_ <=? X) with a;
  let s := eval vm_compute in (Z.land X 7) in change (Z.land X 7) with s;
  let r := eval vm_compute in (acceptRanges (Z.shiftr X 4)) in
    change (acceptRanges (Z.shiftr X 4)) with r;
  cbv beta iota; unfold fst, snd, locb, hicb, len.

Ltac split_ifs :=
  repeat match goal with
         | |- context [if ?x <? ?y then _ else _] => destruct (Z.ltb_spec x y)
         | |- context [if ?x <=? ?y then _ else _] => destruct (Z.leb_spec x y)
         | |- context [?x <? ?y] => destruct (Z.ltb_spec x y)
         end; simpl orb; cbv iota.

(** An ASCII byte after the text does not change how the text is
    decoded. *)
Lemma DecodeRune_app_ascii : forall w c v,
  w <> [] -> byteZ c < 128 -> DecodeRune (w ++ c :: v) = DecodeRune w.
Proof.
  intros w c v Hw Hc. destruct w as [|c0 p1]; [congruence|]. clear Hw.
  pose proof (byteZ_range c0) as R.
  simpl app. unfold DecodeRune. cbv zeta.
  destruct (first_cases _ R) as [[L F] | [[L F] | [L F]]].
  - rewrite F. reflexivity.
  - rewrite F. reflexivity.
  - destruct p1 as [|c1 [|c2 [|c3 p4]]]; simpl app; simpl length;
    destruct F as [F | [F | [F | [F | [F | [F | F]]]]]]; rewrite F;
    match goal with
    | |- context [as_ <=? ?X] => ev_goal X
    end; simpl length; split_ifs; try reflexivity; try lia.
Qed.

Lemma DecodeRune_app_head : forall w v,
  w <> [] -> asciiHead v -> DecodeRune (w ++ v) = DecodeRune w.
Proof.
  intros w v Hw Hv. destruct v as [|c v].
  - rewrite app_nil_r. reflexivity.
  - apply DecodeRune_app_ascii; assumption.
Qed.

(** The bytes of a rune after its first byte are not ASCII. *)
Lemma DecodeRune_tail_bytes : forall w r k i,
  DecodeRune w = (r, k) -> (0 < i < k)%nat -> 128 <= byteZ (nth i w zero).
Proof.
  intros w r k i H Hi. destruct w as [|c0 p1].
  - inversion H; subst. lia.
  - apply DecodeRune_bytes in H. unfold continuation in H.
    destruct H as [[K _] | [_ H]]; [lia|].
    destruct p1 as [|c1 p2]; [contradiction|]. destruct H as [C1 H].
    destruct i as [|[|i]]; [lia | simpl; lia |].
    destruct H as [K | H]; [lia|].
    destruct p2 as [|c2 p3]; [contradiction|]. destruct H as [C2 H].
    destruct i as [|i]; [simpl; lia|].
    destruct H as [K | H]; [lia|].
    destruct p3 as [|c3 p4]; [contradiction|]. destruct H as [C3 K].
    destruct i as [|i]; [simpl; lia | lia].
Qed.

(** One step of the iteration over a text followed by more text. *)
Lemma rangeFrom_step : forall c s v p r n,
  DecodeRune ((c :: s) ++ v) = (r, n) -> (1 <= n <= length (c :: s))%nat ->
  rangeFrom 0 p ((c :: s) ++ v)
  = (p, r, n) :: rangeFrom 0 (p + n) (skipn n (c :: s) ++ v).
Proof.
  intros c s v p r n H Hn. simpl app in *.
  rewrite (rangeFrom_head _ _ _ _ _ H). f_equal.
  rewrite rangeFrom_skip. destruct n as [|n]; [lia|].
  simpl Nat.pred. simpl skipn. simpl length in Hn.
  rewrite skipn_app. replace (n - length s)%nat with 0%nat by lia.
  simpl skipn. f_equal. lia.
Qed.

Lemma rangeFrom_ascii_step : forall c v p,
  byteZ c < 128 ->
  rangeFrom 0 p (c :: v) = (p, byteZ c, 1%nat) :: rangeFrom 0 (S p) v.
Proof.
  intros c v p H.
  rewrite (rangeFrom_head _ _ _ _ _ (DecodeRune_ascii_head c v H)).
  reflexivity.
Qed.

(** Encoding the runes of a well-formed text gives the text. *)
Lemma string_of_runes_clean : forall s : gostring,
  runeClean s -> string_of_runes (runes s) = s.
Proof.
  intros s. induction s as [|c s r n H Hn IH] using rune_ind; intro Hc.
  - reflexivity.
  - rewrite (runes_cons _ _ _ _ H).
    apply (runeClean_cons _ _ _ _ H) in Hc. destruct Hc as [He Hc].
    unfold string_of_runes in *. simpl flat_map. rewrite (IH Hc), He.
    apply firstn_skipn.
Qed.

(** ** The scan of [GetRegionText] along a line *)

Lemma ordered_In_lt : forall l b e, ordered l -> In (b, e) l -> (b < e)%nat.
Proof.
  induction l as [|[b0 e0] l IH]; intros b e Ho Hin; [contradiction|].
  destruct Ho as [L [_ Ho]]. destruct Hin as [E | Hin].
  - inversion E; subst. exact L.
  - apply IH; assumption.
Qed.

Lemma ordered_tail : forall l b0 e0 b e,
  ordered ((b0, e0) :: l) -> In (b, e) l -> (e0 <= b)%nat.
Proof.
  induction l as [|[b1 e1] l IH]; intros b0 e0 b e Ho Hin; [contradiction|].
  destruct Ho as [L [L1 Ho]]. destruct Hin as [E | Hin].
  - inversion E; subst. exact L1.
  - assert (H := IH b1 e1 b e Ho Hin). destruct Ho as [L2 _]. lia.
Qed.

Lemma cnt_nth_gt : forall l pos b e,
  nth_error l (cnt l pos) = Some (b, e) -> (pos < e)%nat.
Proof.
  induction l as [|[b0 e0] l IH]; intros pos b e H; [discriminate|].
  simpl in H. destruct (Nat.leb_spec e0 pos).
  - simpl in H. apply IH with b. exact H.
  - simpl in H. inversion H; subst. exact H0.
Qed.

Lemma cnt_stay : forall l pos pos',
  (pos <= pos')%nat ->
  (forall b e, nth_error l (cnt l pos) = Some (b, e) -> (pos' < e)%nat) ->
  cnt l pos' = cnt l pos.
Proof.
  induction l as [|[b0 e0] l IH]; intros pos pos' Hp H; [reflexivity|].
  simpl in *. destruct (Nat.leb_spec e0 pos).
  - destruct (Nat.leb_spec e0 pos'); [|lia]. f_equal. apply IH; [exact Hp|].
    intros b e Hn. apply (H b e). exact Hn.
  - assert (Hh := H b0 e0 eq_refl).
    destruct (Nat.leb_spec e0 pos'); [lia | reflexivity].
Qed.

Lemma cnt_advance : forall l pos b e,
  ordered l -> nth_error l (cnt l pos) = Some (b, e) ->
  cnt l e = S (cnt l pos).
Proof.
  induction l as [|[b0 e0] l IH]; intros pos b e Ho H; [discriminate|].
  simpl in H. simpl cnt at 2. destruct (Nat.leb_spec e0 pos).
  - simpl in H. assert (Hg := cnt_nth_gt _ _ _ _ H).
    simpl cnt. destruct (Nat.leb_spec e0 e); [|lia]. f_equal.
    apply IH with b; [apply Ho | exact H].
  - simpl in H. inversion H; subst. simpl cnt.
    rewrite Nat.leb_refl. f_equal.
    destruct l as [|[b1 e1] l]; [reflexivity|]. simpl.
    destruct Ho as [_ [L1 [L2 _]]].
    destruct (Nat.leb_spec e1 e); [lia | reflexivity].
Qed.

(** The first tag that is not passed. *)
Lemma first_after : forall l pos b e,
  ordered l -> In (b, e) l -> (pos < e)%nat ->
  (forall b' e', In (b', e') l -> (pos < e')%nat -> (b <= b')%nat) ->
  nth_error l (cnt l pos) = Some (b, e).
Proof.
  induction l as [|[b0 e0] l IH]; intros pos b e Ho Hin Hp Hf; [contradiction|].
  simpl. destruct (Nat.leb_spec e0 pos).
  - simpl. destruct Hin as [E | Hin]; [inversion E; subst; lia|].
    apply IH; [apply Ho | exact Hin | exact Hp |].
    intros b' e' Hin' Hp'. apply (Hf b' e'); [right; exact Hin' | exact Hp'].
  - simpl. destruct Hin as [E | Hin]; [rewrite E; reflexivity|].
    assert (H1 := ordered_tail _ _ _ _ _ Ho Hin).
    assert (H2 := Hf b0 e0 (or_introl eq_refl) H).
    destruct Ho as [L _]. lia.
Qed.

Lemma inTag_Some : forall l cur pos b e,
  inTag l cur pos = Some (b, e) ->
  nth_error l cur = Some (b, e) /\ (b <= pos < e)%nat.
Proof.
  intros l cur pos b e H. unfold inTag in H.
  destruct (nth_error l cur) as [[b0 e0]|]; [|discriminate].
  destruct (Nat.leb_spec b0 pos); destruct (Nat.ltb_spec pos e0);
    simpl in H; try discriminate.
  inversion H; subst. split; [reflexivity | lia].
Qed.

Lemma inTag_None : forall l cur pos b e,
  inTag l cur pos = None -> nth_error l cur = Some (b, e) ->
  ~ (b <= pos < e)%nat.
Proof.
  intros l cur pos b e H Hn. unfold inTag in H. rewrite Hn in H.
  destruct (Nat.leb_spec b pos); destruct (Nat.ltb_spec pos e);
    simpl in H; try discriminate; lia.
Qed.

Lemma inTag_here : forall l cur pos b e,
  nth_error l cur = Some (b, e) -> (b <= pos < e)%nat ->
  inTag l cur pos = Some (b, e).
Proof.
  intros l cur pos b e Hn Hp. unfold inTag. rewrite Hn.
  destruct (Nat.leb_spec b pos); destruct (Nat.ltb_spec pos e);
    try lia. reflexivity.
Qed.

Lemma inTag_away : forall l cur pos,
  (forall b e, nth_error l cur = Some (b, e) -> ~ (b <= pos < e)%nat) ->
  inTag l cur pos = None.
Proof.
  intros l cur pos H. unfold inTag.
  destruct (nth_error l cur) as [[b e]|]; [|reflexivity].
  assert (Hh := H b e eq_refl).
  destruct (Nat.leb_spec b pos); destruct (Nat.ltb_spec pos e);
    try reflexivity. lia.
Qed.

Lemma inside_skipn : forall l p w n,
  inside l p w -> (n <= length w)%nat -> inside l (p + n) (skipn n w).
Proof.
  intros l p w n H Hn b e Hin He Hb.
  rewrite length_skipn in *.
  destruct (H b e Hin) as [L A]; [lia | lia |].
  split; [lia|].
  intros i Hi1 Hi2 Hi3. rewrite nth_skipn.
  replace (n + (i - (p + n)))%nat with (i - p)%nat by lia.
  apply A; lia.
Qed.

Section Scan.

Variable target : gostring.
Variables cti ri : list (nat * nat).
Variable rt : list (list gostring).

Let scan := scanRegion target cti ri rt.

(** Text that no tag touches is added to the output while the current
    region is the requested one, and passed otherwise. *)
Lemma scan_text : forall (x : gostring) v p st,
  asciiHead v ->
  (forall pos, (p <= pos < p + length x)%nat ->
     inTag cti (currentTag st) pos = None /\
     inTag ri (currentRegion st) pos = None) ->
  scan (rangeFrom 0 p (x ++ v)) st
  = scan (rangeFrom 0 (p + length x) v)
      (if gostring_eqb (currentRegionID st) target
       then mkRegionScan (currentTag st) (currentRegion st)
              (currentRegionID st) (out st ++ string_of_runes (runes x))
       else st).
Proof.
  intros x. induction x as [|c s r n H Hn IH] using rune_ind;
    intros v p st Hv Hfree.
  - simpl app. simpl length. rewrite Nat.add_0_r.
    destruct (gostring_eqb (currentRegionID st) target); [|reflexivity].
    unfold string_of_runes. simpl. rewrite app_nil_r. destruct st; reflexivity.
  - assert (Hd : DecodeRune ((c :: s) ++ v) = (r, n)).
    { rewrite DecodeRune_app_head; [exact H | discriminate | exact Hv]. }
    rewrite (rangeFrom_step _ _ _ _ _ _ Hd Hn).
    unfold scan. simpl scanRegion.
    destruct (Hfree p) as [Fc Fr]; [simpl length; lia|].
    rewrite Fc, Fr. fold scan.
    assert (Hl : (length (skipn n (c :: s)) = length (c :: s) - n)%nat)
      by apply length_skipn.
    rewrite IH.
    + rewrite Hl. replace (p + n + (length (c :: s) - n))%nat
        with (p + length (c :: s))%nat by lia.
      f_equal.
      rewrite (runes_cons _ _ _ _ H).
      destruct (gostring_eqb (currentRegionID st) target) eqn:E.
      * simpl. rewrite E. unfold string_of_runes. simpl flat_map.
        rewrite app_assoc. reflexivity.
      * rewrite E. reflexivity.
    + exact Hv.
    + intros pos Hpos. rewrite Hl in Hpos.
      assert (Hh : inTag cti (currentTag st) pos = None /\
                   inTag ri (currentRegion st) pos = None)
        by (apply Hfree; lia).
      destruct (gostring_eqb (currentRegionID st) target); exact Hh.
Qed.

(** The bytes of the current region tag are skipped; at its last byte
    the scan returns if the current region is the requested one, and
    enters the region of the tag otherwise. *)
Lemma scan_tag : forall (T : gostring) v p st b e,
  Forall (fun c => byteZ c < 128) T -> T <> [] ->
  nth_error ri (currentRegion st) = Some (b, e) ->
  (b <= p)%nat -> (p + length T = e)%nat ->
  (forall pos, (p <= pos < e)%nat -> inTag cti (currentTag st) pos = None) ->
  scan (rangeFrom 0 p (T ++ v)) st
  = if gostring_eqb (currentRegionID st) target then inl (out st)
    else scan (rangeFrom 0 e v)
           (mkRegionScan (currentTag st) (S (currentRegion st))
              (nth 1 (nth (currentRegion st) rt []) []) (out st)).
Proof.
  intros T. induction T as [|c T IH]; intros v p st b e HA HT Hn Hb He Hfree;
    [congruence|].
  inversion HA as [|c' T' Hc HA']; subst c' T'.
  simpl app. rewrite (rangeFrom_ascii_step _ _ _ Hc).
  unfold scan. simpl scanRegion. simpl length in He.
  rewrite (Hfree p) by lia.
  rewrite (inTag_here _ _ p _ _ Hn) by lia.
  destruct T as [|c1 T].
  - simpl length in He.
    replace (p =? e - 1)%nat with true by (symmetry; apply Nat.eqb_eq; lia).
    replace (S p) with e by lia. reflexivity.
  - simpl length in He.
    replace (p =? e - 1)%nat with false by (symmetry; apply Nat.eqb_neq; lia).
    fold scan. apply (IH v (S p) st b e); try assumption.
    + discriminate.
    + lia.
    + simpl length. lia.
    + intros pos Hpos. apply Hfree. lia.
Qed.

(** A part of a line outside the requested region: the tags in it are
    passed, the output does not change. *)
Lemma scan_skip : forall (w : gostring) v p st,
  asciiHead v ->
  ordered cti -> ordered ri -> apart cti ri ->
  inside cti p w -> inside ri p w ->
  (forall j b e, nth_error ri j = Some (b, e) -> (e <= p + length w)%nat ->
                 gostring_eqb (nth 1 (nth j rt []) []) target = false) ->
  currentTag st = cnt cti p -> currentRegion st = cnt ri p ->
  gostring_eqb (currentRegionID st) target = false ->
  exists st',
    scan (rangeFrom 0 p (w ++ v)) st = scan (rangeFrom 0 (p + length w) v) st' /\
    currentTag st' = cnt cti (p + length w) /\
    currentRegion st' = cnt ri (p + length w) /\
    gostring_eqb (currentRegionID st') target = false /\
    out st' = out st.
Proof.
  intros w. induction w as [|c s r n H Hn IH] using rune_ind;
    intros v p st Hv Hoc Hor Hap Hic Hir Hids Jc Jr Hid.
  - exists st. simpl app. simpl length. rewrite Nat.add_0_r. auto.
  - assert (Hd : DecodeRune ((c :: s) ++ v) = (r, n)).
    { rewrite DecodeRune_app_head; [exact H | discriminate | exact Hv]. }
    assert (Hl : (length (skipn n (c :: s)) = length (c :: s) - n)%nat)
      by apply length_skipn.
    assert (HIH : forall st1,
      currentTag st1 = cnt cti (p + n) -> currentRegion st1 = cnt ri (p + n) ->
      gostring_eqb (currentRegionID st1) target = false -> out st1 = out st ->
      exists st',
        scan (rangeFrom 0 (p + n) (skipn n (c :: s) ++ v)) st1
        = scan (rangeFrom 0 (p + length (c :: s)) v) st' /\
        currentTag st' = cnt cti (p + length (c :: s)) /\
        currentRegion st' = cnt ri (p + length (c :: s)) /\
        gostring_eqb (currentRegionID st') target = false /\
        out st' = out st).
    { intros st1 J1 J2 J3 J4.
      destruct (IH v (p + n)%nat st1) as [st' [E1 [E2 [E3 [E4 E5]]]]];
        try assumption.
      - apply inside_skipn; [exact Hic | lia].
      - apply inside_skipn; [exact Hir | lia].
      - intros j b e Hj He. apply (Hids j b e Hj). rewrite Hl in He. lia.
      - rewrite Hl in *.
        replace (p + n + (length (c :: s) - n))%nat
          with (p + length (c :: s))%nat in * by lia.
        exists st'. rewrite J4 in E5. auto. }
    rewrite (rangeFrom_step _ _ _ _ _ _ Hd Hn).
    unfold scan. simpl scanRegion. fold scan.
    (* a byte of a tag is an ASCII byte, decoded alone *)
    assert (Hone : forall l b e, inside l p (c :: s) -> In (b, e) l ->
                     (b <= p < e)%nat -> n = 1%nat).
    { intros l b e Hi Hin Hp.
      destruct (Hi b e Hin) as [_ A]; [lia | lia |].
      assert (Ha := A p ltac:(lia) ltac:(lia) ltac:(lia)).
      rewrite Nat.sub_diag in Ha. simpl nth in Ha.
      rewrite (DecodeRune_ascii_head c s Ha) in H. inversion H. reflexivity. }
    (* a tag that starts later starts after the rune *)
    assert (Hlater : forall l b e, inside l p (c :: s) -> In (b, e) l ->
                       (b < e)%nat -> (p < b)%nat -> (p + n <= b)%nat).
    { intros l b e Hi Hin B Hp.
      destruct (Nat.le_gt_cases (p + n) b) as [L | L]; [exact L|].
      exfalso.
      destruct (Hi b e Hin) as [_ A]; [lia | lia |].
      assert (T := DecodeRune_tail_bytes _ _ _ (b - p)%nat H ltac:(lia)).
      assert (Ha := A b ltac:(lia) ltac:(lia) B). lia. }
    destruct (inTag cti (currentTag st) p) as [[b e]|] eqn:Ec.
    + (* in a color tag *)
      apply inTag_Some in Ec. destruct Ec as [Ecn Ecp].
      assert (Hin : In (b, e) cti) by (eapply nth_error_In; exact Ecn).
      assert (N1 : n = 1%nat) by (apply (Hone cti b e); assumption). subst n.
      apply HIH.
      * rewrite Jc in Ecn.
        destruct (Nat.eqb_spec p (e - 1)).
        -- simpl. rewrite Jc. replace (p + 1)%nat with e by lia.
           symmetry. apply (cnt_advance _ _ b e Hoc Ecn).
        -- rewrite Jc. symmetry. apply cnt_stay; [lia|].
           intros b1 e1 Hb1. rewrite Hb1 in Ecn. inversion Ecn; subst. lia.
      * assert (Hr : cnt ri (p + 1) = cnt ri p).
        { apply cnt_stay; [lia|]. intros b1 e1 Hb1.
          assert (G := cnt_nth_gt _ _ _ _ Hb1).
          assert (Hin1 : In (b1, e1) ri) by (eapply nth_error_In; exact Hb1).
          assert (L1 := ordered_In_lt _ _ _ Hor Hin1).
          destruct (Nat.eq_dec e1 (p + 1)) as [E|]; [|lia].
          exfalso. apply (Hap b e b1 e1 p Hin Hin1); lia. }
        destruct (p =? e - 1)%nat; simpl; rewrite Jr, Hr; reflexivity.
      * destruct (p =? e - 1)%nat; exact Hid.
      * destruct (p =? e - 1)%nat; reflexivity.
    + destruct (inTag ri (currentRegion st) p) as [[b e]|] eqn:Er.
      * (* in a region tag *)
        apply inTag_Some in Er. destruct Er as [Ern Erp].
        assert (Hin : In (b, e) ri) by (eapply nth_error_In; exact Ern).
        assert (N1 : n = 1%nat) by (apply (Hone ri b e); assumption). subst n.
        assert (Hc : cnt cti (p + 1) = cnt cti p).
        { apply cnt_stay; [lia|]. intros b1 e1 Hb1.
          assert (G := cnt_nth_gt _ _ _ _ Hb1).
          assert (Hin1 : In (b1, e1) cti) by (eapply nth_error_In; exact Hb1).
          assert (L1 := ordered_In_lt _ _ _ Hoc Hin1).
          destruct (Nat.eq_dec e1 (p + 1)) as [E|]; [|lia].
          exfalso. apply (Hap b1 e1 b e p Hin1 Hin); lia. }
        destruct (Nat.eqb_spec p (e - 1)).
        -- rewrite Hid. apply HIH; simpl.
           ++ rewrite Jc, Hc. reflexivity.
           ++ rewrite Jr. rewrite Jr in Ern.
              replace (p + 1)%nat with e by lia.
              symmetry. apply (cnt_advance _ _ b e Hor Ern).
           ++ apply (Hids _ b e Ern). simpl length. lia.
           ++ reflexivity.
        -- apply HIH.
           ++ rewrite Jc, Hc. reflexivity.
           ++ rewrite Jr. rewrite Jr in Ern. symmetry. apply cnt_stay; [lia|].
              intros b1 e1 Hb1. rewrite Hb1 in Ern. inversion Ern; subst. lia.
           ++ exact Hid.
           ++ reflexivity.
      * (* a rune of the text *)
        rewrite Hid. apply HIH.
        -- rewrite Jc. symmetry. apply cnt_stay; [lia|]. intros b1 e1 Hb1.
           assert (G := cnt_nth_gt _ _ _ _ Hb1).
           assert (Hin1 : In (b1, e1) cti) by (eapply nth_error_In; exact Hb1).
           assert (L1 := ordered_In_lt _ _ _ Hoc Hin1).
           rewrite <- Jc in Hb1. assert (N := inTag_None _ _ _ _ _ Ec Hb1).
           assert (L2 := Hlater cti b1 e1 Hic Hin1 L1 ltac:(lia)). lia.
        -- rewrite Jr. symmetry. apply cnt_stay; [lia|]. intros b1 e1 Hb1.
           assert (G := cnt_nth_gt _ _ _ _ Hb1).
           assert (Hin1 : In (b1, e1) ri) by (eapply nth_error_In; exact Hb1).
           assert (L1 := ordered_In_lt _ _ _ Hor Hin1).
           rewrite <- Jr in Hb1. assert (N := inTag_None _ _ _ _ _ Er Hb1).
           assert (L2 := Hlater ri b1 e1 Hir Hin1 L1 ltac:(lia)). lia.
        -- exact Hid.
        -- reflexivity.
Qed.

End Scan.

(** ** The tags of a line *)

Lemma startsWith_firstn : forall o l,
  firstn (length o) l = o -> startsWith o l = true.
Proof.
  induction o as [|c o IH]; intros l H; [destruct l; reflexivity|].
  destruct l as [|d l]; [discriminate|].
  simpl in H. inversion H; subst. simpl. rewrite Ascii.eqb_refl.
  rewrite H2. apply IH. exact H2.
Qed.

Lemma occursIn_skipn : forall o l k,
  firstn (length o) (skipn k l) = o -> occursIn o l = true.
Proof.
  intros o l. induction l as [|c l IH]; intros k H.
  - rewrite skipn_nil in H. simpl. rewrite (startsWith_firstn _ _ H). reflexivity.
  - destruct k as [|k].
    + simpl skipn in H. simpl occursIn. rewrite (startsWith_firstn _ _ H).
      reflexivity.
    + simpl skipn in H. simpl occursIn. rewrite (IH k H). apply orb_true_r.
Qed.

Lemma nth_mid : forall (u y v : gostring) i,
  (i < length y)%nat -> nth (length u + i) (u ++ y ++ v) zero = nth i y zero.
Proof.
  intros u y v i H. rewrite app_nth2 by lia.
  replace (length u + i - length u)%nat with i by lia.
  apply app_nth1. exact H.
Qed.

Lemma noBracket_nth : forall y i,
  noBracket y = true -> (i < length y)%nat -> nth i y zero <> "["%char.
Proof.
  intros y i H Hi. unfold noBracket in H. rewrite forallb_forall in H.
  assert (Hh := H (nth i y zero) (nth_In _ _ Hi)).
  intro E. rewrite E in Hh. discriminate.
Qed.

(** No bracket in a part of the line: nothing that starts with a
    bracket starts there. *)
Lemma no_start : forall (s u y v : gostring) k,
  s = u ++ y ++ v -> noBracket y = true -> nth k s zero = "["%char ->
  ~ (length u <= k < length u + length y)%nat.
Proof.
  intros s u y v k -> Hy Hk Hr.
  replace k with (length u + (k - length u))%nat in Hk by lia.
  rewrite nth_mid in Hk by lia.
  apply (noBracket_nth y (k - length u) Hy); [lia | exact Hk].
Qed.

Lemma tagOpen_rest : forall id, tagOpen id = "["%char :: tagRest id.
Proof. reflexivity. Qed.

Lemma tagRest_noBracket : forall id,
  forallb isRegionChar id = true -> noBracket (tagRest id) = true.
Proof.
  intros id H. unfold noBracket, tagRest. simpl. rewrite forallb_app. simpl.
  rewrite andb_true_r. rewrite forallb_forall in *. intros c Hc.
  destruct (regionChar_ascii c (H c Hc)) as [_ N].
  destruct (Ascii.eqb_spec c "["%char); [contradiction | reflexivity].
Qed.

Lemma tagOpen_ascii : forall id,
  forallb isRegionChar id = true -> Forall (fun c => byteZ c < 128) (tagOpen id).
Proof.
  intros id H. unfold tagOpen.
  apply Forall_cons; [reflexivity|]. apply Forall_cons; [reflexivity|].
  apply Forall_app. split.
  - rewrite Forall_forall. rewrite forallb_forall in H. intros c Hc.
    apply regionChar_ascii. apply H. exact Hc.
  - apply Forall_cons; [reflexivity|]. apply Forall_cons; [reflexivity|].
    apply Forall_nil.
Qed.

Lemma tag_at_bracket : forall s b e q,
  lineTag s b e -> nth q s zero = "["%char -> (b <= q < e)%nat -> b = q.
Proof.
  intros s b e q [_ [_ H]] Hq Hr.
  destruct (Nat.eq_dec b q) as [E | N]; [exact E|].
  exfalso. destruct (H q) as [_ X]; [lia | contradiction].
Qed.

Lemma tagAt_lineTag : forall s b n,
  (b <= length s)%nat -> tagAt (skipn b s) n -> lineTag s b (b + n).
Proof.
  intros s b n Hb [L [H0 H]]. rewrite length_skipn in L.
  split; [lia|]. split.
  - rewrite nth_skipn in H0. rewrite Nat.add_0_r in H0. exact H0.
  - intros i Hi. assert (Hh := H (i - b)%nat ltac:(lia)).
    rewrite nth_skipn in Hh. replace (b + (i - b))%nat with i in Hh by lia.
    exact Hh.
Qed.

Lemma findAll_sound : forall re s b e,
  In (b, e) (regexp.FindAllStringIndex re s) ->
  exists n gs, e = (b + S n)%nat /\
               regexp.matchAt re (skipn b s) = Some (S n, gs).
Proof.
  intros re s b e H. unfold regexp.FindAllStringIndex in H.
  apply in_map_iff in H. destruct H as [[[b0 e0] gs] [E H]].
  simpl in E. inversion E; subst.
  apply findFrom_sound in H. destruct H as [_ [n [E1 M]]].
  rewrite Nat.sub_0_r in M. exists n, gs. auto.
Qed.

Lemma findAll_lineTag : forall re s b e,
  (forall u n gs, regexp.matchAt re u = Some (n, gs) -> tagAt u n) ->
  In (b, e) (regexp.FindAllStringIndex re s) -> lineTag s b e.
Proof.
  intros re s b e Hre H. apply findAll_sound in H.
  destruct H as [n [gs [-> M]]]. apply Hre in M.
  apply tagAt_lineTag; [|exact M].
  destruct (Nat.le_gt_cases b (length s)) as [L | L]; [exact L|].
  rewrite skipn_all2 in M by lia. destruct M as [[_ X] _]. simpl in X. lia.
Qed.

Lemma colorTags_ordered : forall dc s, ordered (tagsC dc s).
Proof.
  intros dc s. unfold tagsC. destruct dc; [|exact I].
  apply findFrom_ordered.
Qed.

Lemma colorTags_line : forall dc s b e,
  In (b, e) (tagsC dc s) -> lineTag s b e /\ nth (S b) s zero <> quote.
Proof.
  intros dc s b e H. unfold tagsC in H. destruct dc; [|contradiction].
  split.
  - apply (findAll_lineTag colorPattern); [|exact H].
    intros u n gs M. apply (colorPattern_tagAt _ _ _ M).
  - apply findAll_sound in H. destruct H as [n [gs [_ M]]].
    apply colorPattern_tagAt in M. destruct M as [_ M].
    rewrite nth_skipn in M. replace (b + 1)%nat with (S b) in M by lia. exact M.
Qed.

Lemma regionTags_ordered : forall s,
  ordered (regexp.FindAllStringIndex regionPattern s).
Proof. intros s. apply findFrom_ordered. Qed.

Lemma regionTags_line : forall s b e,
  In (b, e) (regexp.FindAllStringIndex regionPattern s) ->
  lineTag s b e /\ nth (S b) s zero = quote /\
  exists id tl, skipn b s = tagOpen id ++ tl /\
                e = (b + length (tagOpen id))%nat.
Proof.
  intros s b e H. split; [|split].
  - apply (findAll_lineTag regionPattern); [|exact H].
    intros u n gs M. apply (regionPattern_tagAt _ _ _ M).
  - apply findAll_sound in H. destruct H as [n [gs [_ M]]].
    apply regionPattern_tagAt in M. destruct M as [_ M].
    rewrite nth_skipn in M. replace (b + 1)%nat with (S b) in M by lia. exact M.
  - apply findAll_sound in H. destruct H as [n [gs [E M]]].
    apply regionPattern_shape in M.
    destruct M as [id [tl [Hs [_ [Hn _]]]]]. exists id, tl.
    split; [exact Hs | lia].
Qed.

(** The identifier recorded for a region tag is the one of the tag. *)
Lemma region_id : forall s j b e,
  nth_error (regexp.FindAllStringIndex regionPattern s) j = Some (b, e) ->
  exists id tl, skipn b s = tagOpen id ++ tl /\
    e = (b + length (tagOpen id))%nat /\
    forallb isRegionChar id = true /\
    nth 1 (nth j (regexp.FindAllStringSubmatch regionPattern s) []) [] = id.
Proof.
  intros s j b e H.
  unfold regexp.FindAllStringIndex, regexp.FindAllStringSubmatch in *.
  rewrite nth_error_map in H.
  destruct (nth_error (regexp.findAll regionPattern s) j) as [[[b0 e0] gs]|] eqn:En;
    [|discriminate].
  simpl in H. inversion H; subst b0 e0.
  assert (Hin := nth_error_In _ _ En).
  apply findFrom_sound in Hin. destruct Hin as [_ [n [E1 M]]].
  rewrite Nat.sub_0_r in M. apply regionPattern_shape in M.
  destruct M as [id [tl [Hs [Hg [Hn0 Hid]]]]]. exists id, tl.
  split; [exact Hs|]. split; [lia|]. split; [exact Hid|].
  match goal with
  | |- nth 1 (nth j (map ?F ?l) []) [] = _ =>
    assert (Hn : nth_error (map F l) j = Some (F (b, e, gs)))
      by (rewrite nth_error_map, En; reflexivity);
    transitivity (nth 1 (F (b, e, gs)) []);
      [f_equal; apply nth_error_nth; exact Hn|]
  end.
  simpl. rewrite Hg. reflexivity.
Qed.

(** A region tag in the line is found. *)
Lemma region_found : forall (s u v id : gostring),
  s = u ++ tagOpen id ++ v -> forallb isRegionChar id = true ->
  In (length u, (length u + length (tagOpen id))%nat)
     (regexp.FindAllStringIndex regionPattern s).
Proof.
  intros s u v id Hs Hid.
  assert (Hk : skipn (length u) s = tagOpen id ++ v).
  { rewrite Hs, skipn_app, skipn_all, Nat.sub_diag. reflexivity. }
  assert (M := regionPattern_tag id v Hid). rewrite <- Hk in M.
  assert (Hl : exists n, length (tagOpen id) = S n).
  { unfold tagOpen. simpl. eexists. reflexivity. }
  destruct Hl as [n Hl]. rewrite Hl in M.
  assert (C := findFrom_complete regionPattern regionPattern_bounded
                 s 0 0 (length u) n [id] (Nat.le_0_l _) M).
  simpl Nat.add in C.
  unfold regexp.FindAllStringIndex.
  apply in_map_iff. exists (length u, (length u + S n)%nat, [id]).
  split; [cbn [fst]; rewrite Hl; reflexivity|].
  apply C. intros b e gs Hin Hcov.
  assert (Hi : In (b, e) (regexp.FindAllStringIndex regionPattern s)).
  { unfold regexp.FindAllStringIndex. apply in_map_iff.
    exists (b, e, gs). split; [reflexivity | exact Hin]. }
  apply regionTags_line in Hi. destruct Hi as [Ht _].
  assert (Hb : nth (length u) s zero = "["%char).
  { rewrite Hs. rewrite app_nth2 by lia. rewrite Nat.sub_diag. reflexivity. }
  assert (X := tag_at_bracket s b e (length u) Ht Hb ltac:(lia)). lia.
Qed.

Lemma tags_apart : forall dc s,
  apart (tagsC dc s) (regexp.FindAllStringIndex regionPattern s).
Proof.
  intros dc s b e b' e' i Hc Hr Hi Hi'.
  apply colorTags_line in Hc. destruct Hc as [Tc Qc].
  apply regionTags_line in Hr. destruct Hr as [Tr [Qr _]].
  destruct (Nat.lt_trichotomy b b') as [L | [E | L]].
  - assert (X := tag_at_bracket s b e b' Tc (proj1 (proj2 Tr)) ltac:(lia)). lia.
  - subst b'. contradiction.
  - assert (X := tag_at_bracket s b' e' b Tr (proj1 (proj2 Tc)) ltac:(lia)). lia.
Qed.

Lemma cnt_0 : forall l, ordered l -> cnt l 0 = 0%nat.
Proof.
  intros [|[b e] l] H; [reflexivity|]. simpl. destruct H as [L _].
  destruct (Nat.leb_spec e 0); [lia | reflexivity].
Qed.

(** ** The requested region in a line *)

Lemma gostring_eqb_false : forall x y : gostring,
  x <> y -> gostring_eqb x y = false.
Proof.
  intros x y H. destruct (gostring_eqb x y) eqn:E; [|reflexivity].
  apply gostring_eqb_eq in E. contradiction.
Qed.

Lemma gostring_eqb_refl : forall x : gostring, gostring_eqb x x = true.
Proof. intros x. apply gostring_eqb_eq. reflexivity. Qed.

Lemma lineTag_ascii : forall s b e i,
  lineTag s b e -> (b <= i < e)%nat -> byteZ (nth i s zero) < 128.
Proof.
  intros s b e i [_ [H0 H]] Hi.
  destruct (Nat.eq_dec i b) as [-> | N].
  - rewrite H0. reflexivity.
  - apply H. lia.
Qed.

Lemma any_lineTag : forall dc s b e,
  In (b, e) (tagsC dc s) \/
  In (b, e) (regexp.FindAllStringIndex regionPattern s) ->
  lineTag s b e.
Proof.
  intros dc s b e [H | H].
  - apply (colorTags_line dc s b e H).
  - apply (regionTags_line s b e H).
Qed.

Lemma closed_at_bracket : forall dc s k,
  nth k s zero = "["%char -> closedAt dc s k.
Proof.
  intros dc s k Hk b e H. apply any_lineTag in H.
  destruct (Nat.le_gt_cases e k) as [L | L]; [left; exact L|].
  destruct (Nat.le_gt_cases k b) as [L' | L']; [right; exact L'|].
  assert (X := tag_at_bracket s b e k H Hk ltac:(lia)). lia.
Qed.

Lemma closed_at_0 : forall dc s, closedAt dc s 0.
Proof. intros dc s b e _. right. lia. Qed.

(** The tags that start in a closed prefix of the line lie in it. *)
Lemma inside_prefix : forall dc (s w v : gostring) l,
  s = w ++ v -> closedAt dc s (length w) ->
  (forall b e, In (b, e) l ->
     In (b, e) (tagsC dc s) \/
     In (b, e) (regexp.FindAllStringIndex regionPattern s)) ->
  inside l 0 w.
Proof.
  intros dc s w v l Hs Hc Hl b e Hin He Hb. simpl in Hb.
  assert (Ht := any_lineTag dc s b e (Hl b e Hin)).
  destruct (Hc b e (Hl b e Hin)) as [L | L]; [|lia].
  split; [simpl; exact L|].
  intros i H1 H2 H3. rewrite Nat.sub_0_r.
  assert (A := lineTag_ascii s b e i Ht ltac:(lia)).
  rewrite Hs in A. rewrite app_nth1 in A by lia. exact A.
Qed.

Section Region.

Variable dc : bool.
Variable a : gostring.
Hypothesis a_chars : forallb isRegionChar a = true.

Let scanLine (s : gostring) :=
  scanRegion a (tagsC dc s)
    (regexp.FindAllStringIndex regionPattern s)
    (regexp.FindAllStringSubmatch regionPattern s).

(** The regions opened in a part of the line where the requested tag
    does not occur are other regions. *)
Lemma ids_outside : forall (s w v : gostring) j b e,
  s = w ++ v -> occursIn (tagOpen a) w = false ->
  nth_error (regexp.FindAllStringIndex regionPattern s) j = Some (b, e) ->
  (e <= length w)%nat ->
  gostring_eqb
    (nth 1 (nth j (regexp.FindAllStringSubmatch regionPattern s) []) []) a
  = false.
Proof.
  intros s w v j b e Hs Ho Hn He.
  destruct (region_id s j b e Hn) as [id [tl [Hk [Ee [Hid Hr]]]]].
  rewrite Hr. apply gostring_eqb_false. intros ->.
  assert (X : occursIn (tagOpen a) w = true); [|congruence].
  apply (occursIn_skipn _ _ b).
  rewrite Hs, skipn_app in Hk.
  replace (b - length w)%nat with 0%nat in Hk by lia. simpl skipn in Hk.
  assert (F : firstn (length (tagOpen a)) (skipn b w ++ v) = tagOpen a).
  { rewrite Hk. rewrite firstn_app, Nat.sub_diag, firstn_all, firstn_O.
    apply app_nil_r. }
  rewrite firstn_app in F. rewrite length_skipn in F.
  replace (length (tagOpen a) - (length w - b))%nat with 0%nat in F by lia.
  rewrite firstn_O, app_nil_r in F. exact F.
Qed.

(** A part of the line before the requested region. *)
Lemma scan_outside : forall (s w v : gostring) st,
  s = w ++ v -> asciiHead v -> closedAt dc s (length w) ->
  occursIn (tagOpen a) w = false ->
  currentTag st = 0%nat -> currentRegion st = 0%nat ->
  gostring_eqb (currentRegionID st) a = false ->
  exists st',
    scanLine s (rangeFrom 0 0 s) st = scanLine s (rangeFrom 0 (length w) v) st' /\
    currentTag st' = cnt (tagsC dc s) (length w) /\
    currentRegion st' =
      cnt (regexp.FindAllStringIndex regionPattern s) (length w) /\
    gostring_eqb (currentRegionID st') a = false /\
    out st' = out st.
Proof.
  intros s w v st Hs Hv Hc Ho Jc Jr Hid.
  assert (Oc := colorTags_ordered dc s).
  assert (Or := regionTags_ordered s).
  destruct (scan_skip a (tagsC dc s)
              (regexp.FindAllStringIndex regionPattern s)
              (regexp.FindAllStringSubmatch regionPattern s)
              w v 0 st Hv Oc Or (tags_apart dc s))
    as [st' [E H]].
  - apply (inside_prefix dc s w v); [exact Hs | exact Hc |]. intros; left; assumption.
  - apply (inside_prefix dc s w v); [exact Hs | exact Hc |]. intros; right; assumption.
  - intros j b e Hn He. apply (ids_outside s w v j b e Hs Ho Hn). exact He.
  - rewrite Jc. symmetry. apply cnt_0. exact Oc.
  - rewrite Jr. symmetry. apply cnt_0. exact Or.
  - exact Hid.
  - simpl Nat.add in E, H. exists st'. split; [|exact H].
    unfold scanLine. rewrite <- Hs in E. exact E.
Qed.

Lemma tagOpen_inj : forall id tl id' tl',
  tagOpen id ++ tl = tagOpen id' ++ tl' ->
  forallb isRegionChar id = true -> forallb isRegionChar id' = true ->
  id = id'.
Proof.
  intros id tl id' tl' H Hi Hi'.
  assert (M := regionPattern_tag id tl Hi).
  assert (M' := regionPattern_tag id' tl' Hi').
  rewrite H, M' in M. inversion M. reflexivity.
Qed.

Lemma tagOpen_length : forall id, length (tagOpen id) = (4 + length id)%nat.
Proof. intros id. unfold tagOpen. simpl. rewrite length_app. simpl. lia. Qed.

Lemma tagRest_length : forall id, length (tagRest id) = (3 + length id)%nat.
Proof. intros id. unfold tagRest. simpl. rewrite length_app. simpl. lia. Qed.

Lemma nth_tag_bracket : forall (u v id : gostring),
  nth (length u) (u ++ tagOpen id ++ v) zero = "["%char.
Proof.
  intros u v id. rewrite app_nth2 by lia. rewrite Nat.sub_diag. reflexivity.
Qed.

Lemma nth_tag_quote : forall (u v id : gostring),
  nth (S (length u)) (u ++ tagOpen id ++ v) zero = quote.
Proof.
  intros u v id. rewrite app_nth2 by lia.
  replace (S (length u) - length u)%nat with 1%nat by lia. reflexivity.
Qed.

(** Nothing starts inside a region tag. *)
Lemma no_start_in_tag : forall (s u v id : gostring) k,
  s = u ++ tagOpen id ++ v -> forallb isRegionChar id = true ->
  nth k s zero = "["%char ->
  ~ (length u < k < length u + length (tagOpen id))%nat.
Proof.
  intros s u v id k Hs Hid Hk Hr.
  apply (no_start s (u ++ ["["%char]) (tagRest id) v k).
  - rewrite Hs, tagOpen_rest, <- app_assoc. reflexivity.
  - apply tagRest_noBracket. exact Hid.
  - exact Hk.
  - rewrite length_app, tagRest_length. rewrite tagOpen_length in Hr.
    simpl length. lia.
Qed.

(** A color tag does not start in a region tag. *)
Lemma color_clear_tag : forall (s u v id : gostring) b e,
  s = u ++ tagOpen id ++ v -> forallb isRegionChar id = true ->
  In (b, e) (tagsC dc s) -> (length u <= b)%nat ->
  (length u + length (tagOpen id) <= b)%nat.
Proof.
  intros s u v id b e Hs Hid Hin Hb.
  destruct (colorTags_line dc s b e Hin) as [Ht Hq].
  destruct (Nat.le_gt_cases (length u + length (tagOpen id)) b) as [L | L];
    [exact L | exfalso].
  destruct (Nat.eq_dec b (length u)) as [-> | N].
  - apply Hq. rewrite Hs. apply nth_tag_quote.
  - apply (no_start_in_tag s u v id b Hs Hid (proj1 (proj2 Ht))). lia.
Qed.

(** A region tag that starts in a region tag is that tag. *)
Lemma region_clear_tag : forall (s u v id : gostring) b e,
  s = u ++ tagOpen id ++ v -> forallb isRegionChar id = true ->
  In (b, e) (regexp.FindAllStringIndex regionPattern s) ->
  (length u <= b)%nat ->
  (b = length u /\ e = (length u + length (tagOpen id))%nat) \/
  (length u + length (tagOpen id) <= b)%nat.
Proof.
  intros s u v id b e Hs Hid Hin Hb.
  destruct (regionTags_line s b e Hin) as [Ht [Hq [id' [tl [Hk He]]]]].
  destruct (Nat.le_gt_cases (length u + length (tagOpen id)) b) as [L | L];
    [right; exact L | left].
  destruct (Nat.eq_dec b (length u)) as [-> | N].
  - split; [reflexivity|].
    destruct (In_nth_error _ _ Hin) as [j Hj].
    destruct (region_id s j _ _ Hj) as [id2 [tl2 [Hk2 [He2 [Hid2 _]]]]].
    rewrite Hs, skipn_app, skipn_all, Nat.sub_diag in Hk2. simpl in Hk2.
    rewrite (tagOpen_inj _ _ _ _ Hk2 Hid Hid2). exact He2.
  - exfalso.
    apply (no_start_in_tag s u v id b Hs Hid (proj1 (proj2 Ht))). lia.
Qed.

Lemma closed_after_tag : forall (s u v id : gostring),
  s = u ++ tagOpen id ++ v -> forallb isRegionChar id = true ->
  closedAt dc s (length u + length (tagOpen id)).
Proof.
  intros s u v id Hs Hid b e H.
  assert (Hc : closedAt dc s (length u)).
  { apply closed_at_bracket. rewrite Hs. apply nth_tag_bracket. }
  destruct (Hc b e H) as [L | L]; [left; lia|].
  destruct H as [H | H].
  - right. apply (color_clear_tag s u v id b e Hs Hid H L).
  - destruct (region_clear_tag s u v id b e Hs Hid H L) as [[_ E] | R];
      [left; lia | right; exact R].
Qed.

(** The region tag where the scan stands is the current region tag. *)
Lemma tag_current : forall (s u v id : gostring) k,
  s = u ++ tagOpen id ++ v -> forallb isRegionChar id = true ->
  (k <= length u)%nat ->
  (forall b e, In (b, e) (regexp.FindAllStringIndex regionPattern s) ->
               (k < e)%nat -> (length u <= b)%nat) ->
  nth_error (regexp.FindAllStringIndex regionPattern s)
            (cnt (regexp.FindAllStringIndex regionPattern s) k)
  = Some (length u, (length u + length (tagOpen id))%nat).
Proof.
  intros s u v id k Hs Hid Hk Hf.
  apply first_after.
  - apply regionTags_ordered.
  - apply (region_found s u v id Hs Hid).
  - rewrite tagOpen_length. lia.
  - exact Hf.
Qed.

(** The color tag that is current before a region tag lies after it. *)
Lemma color_away : forall (s u v id : gostring) k pos,
  s = u ++ tagOpen id ++ v -> forallb isRegionChar id = true ->
  (k <= length u)%nat ->
  (forall b e, In (b, e) (tagsC dc s) -> (k < e)%nat -> (length u <= b)%nat) ->
  (pos < length u + length (tagOpen id))%nat ->
  inTag (tagsC dc s) (cnt (tagsC dc s) k) pos = None.
Proof.
  intros s u v id k pos Hs Hid Hk Hf Hp.
  apply inTag_away. intros b e Hn.
  assert (Hin := nth_error_In _ _ Hn).
  assert (G := cnt_nth_gt _ _ _ _ Hn).
  assert (L := color_clear_tag s u v id b e Hs Hid Hin (Hf b e Hin G)).
  lia.
Qed.

(** The line up to the end of the tag that opens the requested
    region. *)
Lemma scan_open : forall (s pre v : gostring) st,
  s = pre ++ tagOpen a ++ v ->
  occursIn (tagOpen a) pre = false ->
  currentTag st = 0%nat -> currentRegion st = 0%nat ->
  gostring_eqb (currentRegionID st) a = false ->
  exists st1,
    scanLine s (rangeFrom 0 0 s) st
    = scanLine s (rangeFrom 0 (length pre + length (tagOpen a)) v) st1 /\
    currentTag st1 = cnt (tagsC dc s) (length pre + length (tagOpen a)) /\
    currentRegion st1 =
      cnt (regexp.FindAllStringIndex regionPattern s)
          (length pre + length (tagOpen a)) /\
    currentRegionID st1 = a /\
    out st1 = out st.
Proof.
  intros s pre v st Hs Ho Jc Jr Hid.
  assert (Hc : closedAt dc s (length pre)).
  { apply closed_at_bracket. rewrite Hs. apply nth_tag_bracket. }
  destruct (scan_outside s pre (tagOpen a ++ v) st Hs) as [st' [E [Jc' [Jr' [Hid' Ho']]]]];
    try assumption.
  { simpl. reflexivity. }
  set (ri := regexp.FindAllStringIndex regionPattern s) in *.
  set (e := (length pre + length (tagOpen a))%nat).
  assert (Hcur : nth_error ri (cnt ri (length pre)) = Some (length pre, e)).
  { apply (tag_current s pre v a (length pre) Hs a_chars (Nat.le_refl _)).
    intros b0 e0 Hin He. destruct (Hc b0 e0 (or_intror Hin)); [lia | assumption]. }
  assert (Hcol : forall b0 e0, In (b0, e0) (tagsC dc s) ->
                   (length pre < e0)%nat -> (length pre <= b0)%nat).
  { intros b0 e0 Hin He. destruct (Hc b0 e0 (or_introl Hin)); [lia | assumption]. }
  assert (T := scan_tag a (tagsC dc s) ri
                 (regexp.FindAllStringSubmatch regionPattern s)
                 (tagOpen a) v (length pre) st' (length pre) e
                 (tagOpen_ascii a a_chars)).
  rewrite Hid' in T.
  exists (mkRegionScan (currentTag st') (S (currentRegion st'))
            (nth 1 (nth (currentRegion st')
                        (regexp.FindAllStringSubmatch regionPattern s) []) [])
            (out st')).
  split; [|split; [|split; [|split]]].
  - rewrite E. apply T.
    + discriminate.
    + rewrite Jr'. exact Hcur.
    + lia.
    + reflexivity.
    + intros pos Hp. rewrite Jc'.
      apply (color_away s pre v a (length pre) pos Hs a_chars (Nat.le_refl _) Hcol).
      unfold e in Hp. lia.
  - simpl. rewrite Jc'. symmetry. apply cnt_stay; [unfold e; lia|].
    intros b0 e0 Hn.
    assert (Hin := nth_error_In _ _ Hn).
    assert (G := cnt_nth_gt _ _ _ _ Hn).
    assert (L := color_clear_tag s pre v a b0 e0 Hs a_chars Hin (Hcol b0 e0 Hin G)).
    assert (B := ordered_In_lt _ _ _ (colorTags_ordered dc s) Hin).
    unfold e. lia.
  - simpl. rewrite Jr'. symmetry.
    apply (cnt_advance ri (length pre) (length pre) e (regionTags_ordered s) Hcur).
  - simpl. rewrite Jr'.
    destruct (region_id s _ _ _ Hcur) as [id [tl [Hk [_ [Hidc Hr]]]]].
    fold ri in Hr. rewrite Hr.
    rewrite Hs, skipn_app, skipn_all, Nat.sub_diag in Hk. simpl in Hk.
    symmetry. apply (tagOpen_inj _ _ _ _ Hk a_chars Hidc).
  - simpl. exact Ho'.
Qed.

(** Text without brackets after a closed position is touched by no
    tag. *)
Lemma text_free : forall (s u x v : gostring) pos,
  s = u ++ x ++ v -> noBracket x = true -> closedAt dc s (length u) ->
  (length u <= pos < length u + length x)%nat ->
  inTag (tagsC dc s) (cnt (tagsC dc s) (length u)) pos = None /\
  inTag (regexp.FindAllStringIndex regionPattern s)
        (cnt (regexp.FindAllStringIndex regionPattern s) (length u)) pos = None.
Proof.
  intros s u x v pos Hs Hx Hc Hp.
  assert (K : forall l, (forall b e, In (b, e) l ->
                 In (b, e) (tagsC dc s) \/
                 In (b, e) (regexp.FindAllStringIndex regionPattern s)) ->
              inTag l (cnt l (length u)) pos = None).
  { intros l Hl. apply inTag_away. intros b e Hn.
    assert (Hin := nth_error_In _ _ Hn).
    assert (G := cnt_nth_gt _ _ _ _ Hn).
    assert (Ht := any_lineTag dc s b e (Hl b e Hin)).
    destruct (Hc b e (Hl b e Hin)) as [L | L]; [lia|].
    assert (N := no_start s u x v b Hs Hx (proj1 (proj2 Ht))). lia. }
  split; apply K; intros b e Hin; [left | right]; exact Hin.
Qed.

(** After a closed position, the tags not passed start after the text
    without brackets. *)
Lemma after_text : forall (s u x v : gostring) b e,
  s = u ++ x ++ v -> noBracket x = true -> closedAt dc s (length u) ->
  In (b, e) (tagsC dc s) \/
  In (b, e) (regexp.FindAllStringIndex regionPattern s) ->
  (length u < e)%nat -> (length u + length x <= b)%nat.
Proof.
  intros s u x v b e Hs Hx Hc Hin He.
  assert (Ht := any_lineTag dc s b e Hin).
  destruct (Hc b e Hin) as [L | L]; [lia|].
  assert (N := no_start s u x v b Hs Hx (proj1 (proj2 Ht))). lia.
Qed.

(** The rest of a line that ends inside the requested region. *)
Lemma scan_body_end : forall (s u x : gostring) st,
  s = u ++ x -> noBracket x = true -> closedAt dc s (length u) ->
  currentTag st = cnt (tagsC dc s) (length u) ->
  currentRegion st =
    cnt (regexp.FindAllStringIndex regionPattern s) (length u) ->
  currentRegionID st = a ->
  scanLine s (rangeFrom 0 (length u) x) st
  = inr (mkRegionScan (currentTag st) (currentRegion st) a
           (out st ++ string_of_runes (runes x))).
Proof.
  intros s u x st Hs Hx Hc Jc Jr Hid.
  assert (T := scan_text a (tagsC dc s)
                 (regexp.FindAllStringIndex regionPattern s)
                 (regexp.FindAllStringSubmatch regionPattern s)
                 x [] (length u) st I).
  rewrite app_nil_r in T. unfold scanLine. rewrite T.
  - rewrite Hid, gostring_eqb_refl. reflexivity.
  - intros pos Hp. rewrite Jc, Jr.
    apply (text_free s u x [] pos); try assumption.
    rewrite app_nil_r. exact Hs.
Qed.

(** The rest of a line in which the requested region is closed. *)
Lemma scan_body_close : forall (s u x b post : gostring) st,
  s = u ++ x ++ tagOpen b ++ post ->
  forallb isRegionChar b = true ->
  noBracket x = true -> closedAt dc s (length u) ->
  currentTag st = cnt (tagsC dc s) (length u) ->
  currentRegion st =
    cnt (regexp.FindAllStringIndex regionPattern s) (length u) ->
  currentRegionID st = a ->
  scanLine s (rangeFrom 0 (length u) (x ++ tagOpen b ++ post)) st
  = inl (out st ++ string_of_runes (runes x)).
Proof.
  intros s u x b post st Hs Hb Hx Hc Jc Jr Hid.
  assert (Hs' : s = (u ++ x) ++ tagOpen b ++ post)
    by (rewrite <- app_assoc; exact Hs).
  assert (T := scan_text a (tagsC dc s)
                 (regexp.FindAllStringIndex regionPattern s)
                 (regexp.FindAllStringSubmatch regionPattern s)
                 x (tagOpen b ++ post) (length u) st).
  unfold scanLine. rewrite T; clear T.
  - rewrite Hid, gostring_eqb_refl.
    set (st2 := mkRegionScan (currentTag st) (currentRegion st) a
                  (out st ++ string_of_runes (runes x))).
    assert (T := scan_tag a (tagsC dc s)
                 (regexp.FindAllStringIndex regionPattern s)
                 (regexp.FindAllStringSubmatch regionPattern s)
                 (tagOpen b) post (length u + length x) st2
                 (length u + length x)
                 (length u + length x + length (tagOpen b))
                 (tagOpen_ascii b Hb)).
    simpl currentRegionID in T. rewrite gostring_eqb_refl in T.
    apply T.
    + discriminate.
    + simpl. rewrite Jr. rewrite <- length_app.
      apply (tag_current s (u ++ x) post b (length u) Hs' Hb).
      * rewrite length_app. lia.
      * intros b0 e0 Hin He. rewrite length_app.
        apply (after_text s u x (tagOpen b ++ post) b0 e0 Hs Hx Hc
                 (or_intror Hin) He).
    + lia.
    + reflexivity.
    + intros pos Hp. simpl. rewrite Jc.
      apply (color_away s (u ++ x) post b (length u) pos Hs' Hb).
      * rewrite length_app. lia.
      * intros b0 e0 Hin He. rewrite length_app.
        apply (after_text s u x (tagOpen b ++ post) b0 e0 Hs Hx Hc
                 (or_introl Hin) He).
      * rewrite length_app. lia.
  - simpl. reflexivity.
  - intros pos Hp. rewrite Jc, Jr.
    apply (text_free s u x (tagOpen b ++ post) pos); assumption.
Qed.

End Region.

(** ** The text of a region *)

Section RegionText.

Variable t : TextView.
Variable a : gostring.
Hypothesis regions_on : regions t = true.
Hypothesis a_chars : forallb isRegionChar a = true.

Let dc := dynamicColors t.

Let scanLine (s : gostring) :=
  scanRegion a (tagsC dc s)
    (regexp.FindAllStringIndex regionPattern s)
    (regexp.FindAllStringSubmatch regionPattern s).

(** What follows the scan of a line. *)
Let finish (rest : list gostring) (r : gostring + regionScan)
  : gostring + (gostring * gostring) :=
  match r with
  | inl text => inl text
  | inr st =>
    scanBuffer t a rest (currentRegionID st)
      (if gostring_eqb (currentRegionID st) a
       then out st ++ EncodeRune 10 else out st)
  end.

Lemma scanBuffer_cons : forall s rest id acc,
  scanBuffer t a (s :: rest) id acc
  = finish rest (scanLine s (rangeFrom 0 0 s) (mkRegionScan 0 0 id acc)).
Proof.
  intros s rest id acc. simpl scanBuffer. rewrite regions_on. reflexivity.
Qed.

(** The lines before the requested region leave the output empty. *)
Lemma scan_before : forall before rest id acc,
  forallb (fun l => negb (occursIn (tagOpen a) l)) before = true ->
  gostring_eqb id a = false ->
  exists id',
    gostring_eqb id' a = false /\
    scanBuffer t a (before ++ rest) id acc = scanBuffer t a rest id' acc.
Proof.
  induction before as [|l before IH]; intros rest id acc Hb Hid.
  - exists id. split; [exact Hid | reflexivity].
  - simpl in Hb. apply andb_true_iff in Hb. destruct Hb as [Hl Hb].
    apply negb_true_iff in Hl.
    simpl app. rewrite scanBuffer_cons.
    assert (Hs : l = l ++ []) by (symmetry; apply app_nil_r).
    assert (Hc : closedAt dc l (length l)).
    { intros b e H. left.
      destruct (any_lineTag dc l b e H) as [[_ L] _]. exact L. }
    destruct (scan_outside dc a l l [] (mkRegionScan 0 0 id acc)
                Hs I Hc Hl eq_refl eq_refl Hid)
      as [st' [E [_ [_ [Hid' Ho]]]]].
    unfold scanLine. rewrite E. simpl rangeFrom. simpl scanRegion.
    unfold finish. rewrite Hid'. rewrite Ho. simpl out.
    apply IH; assumption.
Qed.

Lemma closeLines_cons : forall xs x tail,
  exists l ls, closeLines x xs tail = l :: ls.
Proof.
  intros [|y ys] x tail; simpl; eauto.
Qed.

(** From a position inside the requested region: the text up to the
    closing tag is returned, with a line break at each end of line. *)
Lemma scan_lines : forall xs x b post rest l ls u st,
  forallb isRegionChar b = true ->
  forallb noBracket (x :: xs) = true ->
  Forall runeClean (x :: xs) ->
  closeLines x xs (tagOpen b ++ post) = l :: ls ->
  closedAt dc (u ++ l) (length u) ->
  currentTag st = cnt (tagsC dc (u ++ l)) (length u) ->
  currentRegion st =
    cnt (regexp.FindAllStringIndex regionPattern (u ++ l)) (length u) ->
  currentRegionID st = a ->
  finish (ls ++ rest) (scanLine (u ++ l) (rangeFrom 0 (length u) l) st)
  = inl (out st ++ joinLines (x :: xs)).
Proof.
  induction xs as [|y ys IH]; intros x b post rest l ls u st Hb Hn Hc Hl Hcl Jc Jr Hid.
  - cbn [closeLines] in Hl.
    assert (El := f_equal (hd []) Hl). assert (Els := f_equal (@tl _) Hl).
    cbn [hd tl] in El, Els. clear Hl. subst l ls.
    simpl in Hn. rewrite andb_true_r in Hn.
    inversion Hc as [|x' xs' Hx _]; subst x' xs'.
    unfold scanLine.
    rewrite (scan_body_close dc a (u ++ x ++ tagOpen b ++ post)
               u x b post st eq_refl Hb Hn Hcl Jc Jr Hid).
    simpl. rewrite (string_of_runes_clean x Hx). reflexivity.
  - cbn [closeLines] in Hl.
    assert (El := f_equal (hd []) Hl). assert (Els := f_equal (@tl _) Hl).
    cbn [hd tl] in El, Els. clear Hl. subst l ls.
    simpl forallb in Hn. apply andb_true_iff in Hn. destruct Hn as [Hx Hn].
    inversion Hc as [|x' xs' Cx Hc']; subst x' xs'.
    unfold scanLine.
    rewrite (scan_body_end dc a (u ++ x) u x st
               eq_refl Hx Hcl Jc Jr Hid).
    unfold finish. simpl currentRegionID. rewrite gostring_eqb_refl.
    simpl out. rewrite (string_of_runes_clean x Cx).
    destruct (closeLines_cons ys y (tagOpen b ++ post)) as [l' [ls' El]].
    rewrite El. simpl app. rewrite scanBuffer_cons.
    assert (R := IH y b post rest l' ls' [] 
                   (mkRegionScan 0 0 a ((out st ++ x) ++ EncodeRune 10))
                   Hb Hn Hc' El).
    simpl app in R. simpl length in R. fold finish. unfold scanLine in R |- *.
    rewrite R.
    + simpl out. f_equal. rewrite <- !app_assoc. reflexivity.
    + apply closed_at_0.
    + simpl. symmetry. apply cnt_0. apply colorTags_ordered.
    + simpl. symmetry. apply cnt_0. apply regionTags_ordered.
    + reflexivity.
Qed.

End RegionText.

(** C8: with regions enabled, when the buffer holds a region opened by
    the tag of [a] and closed by a region tag (the region-close tag is
    the tag with the empty identifier), the tag of [a] occurring
    nowhere before, and the text between the two tags is well-formed
    and holds no opening bracket, then [GetRegionText] of [a] returns
    exactly that text: its lines joined by line breaks, whatever
    precedes the region and whatever follows its closing tag. *)
Theorem GetRegionText_region_text :
  forall (escapePattern : regexp.Regexp) (t : TextView) (a b : gostring)
         (before after : list gostring) (pre post x : gostring)
         (xs : list gostring),
    regions t = true ->
    a <> [] ->
    forallb isRegionChar a = true ->
    forallb isRegionChar b = true ->
    forallb (fun l => negb (occursIn (tagOpen a) l)) before = true ->
    occursIn (tagOpen a) pre = false ->
    forallb noBracket (x :: xs) = true ->
    Forall runeClean (x :: xs) ->
    buffer t = before
               ++ regionLines (pre ++ tagOpen a) x xs (tagOpen b ++ post)
               ++ after ->
    GetRegionText escapePattern t a = joinLines (x :: xs).
Proof.
  intros esc t a b before after pre post x xs Hr Ha Hac Hbc Hbef Hpre Hn Hc Hbuf.
  unfold GetRegionText. rewrite Hr. simpl negb. simpl orb.
  assert (Ha0 : gostring_eqb [] a = false)
    by (apply gostring_eqb_false; congruence).
  rewrite (gostring_eqb_false a [] Ha). rewrite Hbuf.
  destruct (scan_before t a Hr before
              (regionLines (pre ++ tagOpen a) x xs (tagOpen b ++ post) ++ after)
              [] [] Hbef Ha0) as [id' [Hid' E]].
  rewrite E. clear E.
  unfold regionLines.
  destruct (closeLines_cons xs x (tagOpen b ++ post)) as [l [ls El]].
  rewrite El. simpl app at 1.
  change (((pre ++ tagOpen a) ++ l) :: ls ++ after)
    with (((pre ++ tagOpen a) ++ l) :: (ls ++ after)).
  rewrite (scanBuffer_cons t a Hr).
  assert (Hs : (pre ++ tagOpen a) ++ l = pre ++ tagOpen a ++ l)
    by (symmetry; apply app_assoc).
  destruct (scan_open (dynamicColors t) a Hac ((pre ++ tagOpen a) ++ l) pre l
              (mkRegionScan 0 0 id' []) Hs Hpre eq_refl eq_refl Hid')
    as [st1 [E [Jc [Jr [Hid1 Ho1]]]]].
  rewrite E. clear E.
  rewrite <- length_app in *.
  assert (Hcl : closedAt (dynamicColors t) ((pre ++ tagOpen a) ++ l)
                  (length (pre ++ tagOpen a))).
  { rewrite length_app. apply (closed_after_tag _ _ pre l a Hs Hac). }
  assert (R := scan_lines t a Hr xs x b post after l ls (pre ++ tagOpen a) st1
                 Hbc Hn Hc El Hcl Jc Jr Hid1).
  rewrite R. rewrite Ho1. reflexivity.
Qed.

Lemma wrap_hello_wonderful_world_witness :
  exists t',
    reindexBuffer asciiRuneWidth noColor colorEscape 10 helloView = Returns t' /\
    index t' = [mkIndex 0 0 5 5 0 []; mkIndex 0 6 15 9 0 []; mkIndex 0 16 21 5 0 []].
Proof.
  apply (wrap_hello_wonderful_world asciiRuneWidth noColor colorEscape 0
           asciiRuneWidth_printable).
Defined.




(** C6, counterexample: drawing a new, empty view leaves the line offset
    at -1: the draw returns before the clamping since there is no
    index. *)
Lemma Draw_empty_view_keeps_negative_offset :
  exists t',
    Draw asciiRuneWidth noColor colorEscape 10 5 (NewTextView 0) = Returns t' /\
    lineOffset t' = -1 /\ ~ 0 <= lineOffset t'.
Proof.
  eexists. split; [vm_compute; reflexivity|]. simpl. split; [reflexivity | lia].
Qed.

Lemma Draw_clamps_lineOffset_witness :
  (len (index helloIndexed) < lineOffset (moveToHighlights 2 helloIndexed) + 2 ->
   trackEnd helloDrawn = true) /\
  (trackEnd helloDrawn = true ->
   lineOffset helloDrawn = Z.max (len (index helloIndexed) - 2) 0) /\
  0 <= lineOffset helloDrawn.
Proof.
  apply (Draw_clamps_lineOffset asciiRuneWidth noColor colorEscape 10 2
           helloView helloIndexed helloDrawn).
  - vm_compute. reflexivity.
  - vm_compute. discriminate.
  - vm_compute. reflexivity.
Defined.

(** C7, counterexample: a highlighted range of one line (line 1) fits in
    a viewport of height 1, yet the line offset is set to
    [fromHighlight], not to [(fromHighlight + toHighlight - height) / 2]:
    the range is centered only when it has fewer lines than the
    viewport. *)
Lemma Draw_full_height_highlight_not_centered :
  drawReindex asciiRuneWidth noColor colorEscape 10 1 regionView = Returns regionIndexed /\
  regions regionIndexed = true /\ scrollToHighlights regionIndexed = true /\
  fromHighlight regionIndexed = 1 /\ toHighlight regionIndexed = 1 /\
  toHighlight regionIndexed - fromHighlight regionIndexed + 1 <= 1 /\
  lineOffset (moveToHighlights 1 regionIndexed) = 1 /\
  Z.quot (fromHighlight regionIndexed + toHighlight regionIndexed - 1) 2 = 0 /\
  (exists t', Draw asciiRuneWidth noColor colorEscape 10 1 regionView = Returns t' /\
              lineOffset t' = 1).
Proof.
  split; [vm_compute; reflexivity|].
  do 4 (split; [reflexivity|]).
  split; [vm_compute; discriminate|].
  do 2 (split; [reflexivity|]).
  eexists. split; [vm_compute; reflexivity | reflexivity].
Qed.

Lemma Draw_moves_to_highlights_witness :
  lineOffset (moveToHighlights 10 regionIndexed) = -4 /\
  scrollToHighlights (moveToHighlights 10 regionIndexed) = false.
Proof.
  assert (E : drawReindex asciiRuneWidth noColor colorEscape 10 10 regionView
              = Returns (set_pageSize 10 regionIndexed)) by (vm_compute; reflexivity).
  destruct (Draw_moves_to_highlights asciiRuneWidth noColor colorEscape 10 10
              regionView (set_pageSize 10 regionIndexed) E eq_refl eq_refl
              ltac:(vm_compute; discriminate))
    as [_ [C [_ [_ [F _]]]]].
  split; [apply C; vm_compute; reflexivity | exact F].
Defined.




Lemma GetRegionText_region_text_witness :
  GetRegionText colorEscape regionTextView (str "a")
  = str "text" ++ newline :: str "more".
Proof.
  assert (Hc : Forall runeClean [str "text"; str "more"]).
  { apply Forall_cons; [reflexivity|]. apply Forall_cons; [reflexivity|].
    apply Forall_nil. }
  exact (GetRegionText_region_text colorEscape regionTextView (str "a") []
           [str "intro"] [str "z"] (str "see ") (str " end")
           (str "text") [str "more"]
           eq_refl ltac:(discriminate) eq_refl eq_refl eq_refl eq_refl eq_refl
           Hc eq_refl).
Defined.
